(** * django_mysql.cache.MySQLCache: a shallow embedding and its properties

    The cache backend of [src/django_mysql/cache.py] stores pickled values in
    one MySQL table [(cache_key, value, expires)] and talks to it with one
    statement per operation.  This development embeds

    - the text manipulation the module performs on its SQL templates
      ([str.replace], [str.join], [str.format], the [%] operator),
    - the table as a finite map from [cache_key] to [(value, expires)],
    - every public method as a computation over the table and the list of
      statements handed to the cursor, with Python exceptions as results,

    and proves the properties of the specification about them. *)

From Stdlib Require Import ZArith QArith Qround Qabs Qpower String Ascii List Lia Lqa.
From stdpp Require Import gmap strings.

Open Scope Z_scope.

(** ** Python string methods used on the SQL templates *)

Module PyStr.

Definition nl : string := String (ascii_of_nat 10) EmptyString.

(** A triple-quoted literal, given line by line. *)
Definition lines (ls : list string) : string := String.concat nl ls.

(** [sep.join(parts)] *)
Definition join (sep : string) (parts : list string) : string :=
  String.concat sep parts.

(** [s.replace(old, new)]: every non-overlapping occurrence, left to right.
    [skip] counts the characters of a matched [old] still to be dropped. *)
Fixpoint replace_from (old new : string) (skip : nat) (s : string) : string :=
  match s with
  | EmptyString => EmptyString
  | String c rest =>
      match skip with
      | S n => replace_from old new n rest
      | O =>
          if String.prefix old s
          then new +:+ replace_from old new (String.length old - 1) rest
          else String c (replace_from old new 0 rest)
      end
  end.

Definition replace (old new s : string) : string := replace_from old new 0 s.

Definition is_brace (c : ascii) : bool :=
  bool_decide (c = "{"%char) || bool_decide (c = "}"%char).

(** [s.format(table_name=table)]: doubled braces are literal braces, the
    field [{table_name}] is substituted, any other brace is an error
    ([None] stands for the [KeyError]/[ValueError] Python raises). *)
Fixpoint format_from (table : string) (skip : nat) (s : string) : option string :=
  match s with
  | EmptyString => Some EmptyString
  | String c rest =>
      match skip with
      | S n => format_from table n rest
      | O =>
          if String.prefix "{{" s then String "{" <$> format_from table 1 rest
          else if String.prefix "}}" s then String "}" <$> format_from table 1 rest
          else if String.prefix "{table_name}" s
               then String.append table <$> format_from table 11 rest
          else if is_brace c then None
          else String c <$> format_from table 0 rest
      end
  end.

Definition format (s table : string) : option string := format_from table 0 s.

(** [s % arg] with a single string argument: [%s] takes the argument, [%%]
    is a literal percent sign; a second [%s], another conversion, or an
    unused argument is a [TypeError]/[ValueError] ([None]). *)
Fixpoint percent_from (arg : option string) (skip : nat) (s : string) : option string :=
  match s with
  | EmptyString => match arg with None => Some EmptyString | Some _ => None end
  | String c rest =>
      match skip with
      | S n => percent_from arg n rest
      | O =>
          if String.prefix "%%" s then String "%" <$> percent_from arg 1 rest
          else if String.prefix "%s" s
               then match arg with
                    | Some a => String.append a <$> percent_from None 1 rest
                    | None => None
                    end
          else if bool_decide (c = "%"%char) then None
          else String c <$> percent_from arg 0 rest
      end
  end.

Definition percent (s arg : string) : option string := percent_from (Some arg) 0 s.

Definition is_space (c : ascii) : bool :=
  let n := nat_of_ascii c in
  bool_decide (n = 32%nat) || (bool_decide (9 ≤ n)%nat && bool_decide (n ≤ 13)%nat).

(** Modelled from the spec: [django_mysql.utils.collapse_spaces] is imported
    by the cache module but defined in another file of the package.  The
    specification only relies on what its name says: every run of
    whitespace becomes one space and the ends are trimmed.  [started] is
    set once a visible character was copied, [pending] while a run of
    whitespace waits for the next visible character. *)
Fixpoint collapse_from (started pending : bool) (s : string) : string :=
  match s with
  | EmptyString => EmptyString
  | String c rest =>
      if is_space c then collapse_from started true rest
      else if started && pending
           then String " " (String c (collapse_from true false rest))
           else String c (collapse_from true false rest)
  end.

Definition collapse_spaces (s : string) : string := collapse_from false false s.

End PyStr.

(** ** Data model *)

(** [BIGINT_UNSIGNED_MAX = 18446744073709551615] and
    [FOREVER_TIMEOUT = BIGINT_UNSIGNED_MAX >> 1]. *)
Definition BIGINT_UNSIGNED_MAX : Z := 18446744073709551615.
Definition FOREVER_TIMEOUT : Z := Z.shiftr BIGINT_UNSIGNED_MAX 1.

Definition bytes : Type := list Byte.byte.

(** One row of the cache table, under its [cache_key]: the columns [value]
    (the pickled blob) and [expires] (milliseconds). *)
Record row : Type := Row { value : bytes; expires : Z }.

(** The [timeout] argument of the write methods: the framework's
    [DEFAULT_TIMEOUT] marker, [None], or a number of seconds. *)
Inductive timeout : Type :=
| DEFAULT_TIMEOUT
| TimeoutNone
| Seconds (s : Q).

(** The exceptions that can leave a method. *)
Inductive exn : Type :=
| ValueError          (* validate_key: key longer than 250 characters *)
| TypeError           (* arithmetic on None in get_backend_timeout *)
| OverflowError       (* int() of an infinite float *)
| KeyError            (* str.format / dict lookup *)
| UnpicklingError     (* pickle.loads on a malformed blob *)
| ProgrammingError.   (* the server rejects the statement text *)

Inductive outcome (A : Type) : Type :=
| Return (a : A)
| Raise (e : exn).
Arguments Return {A} a.
Arguments Raise {A} e.

(** A parameter handed to [cursor.execute] next to the statement text. *)
Inductive param : Type :=
| PStr (s : string)
| PBlob (b : bytes)
| PInt (z : Z)
| PFloat (q : Q)
| PList (l : list string).

(** What a method can touch: the table behind the cursor, and the
    statements it has handed to [cursor.execute], oldest first. *)
Record store : Type := Store {
  table : gmap string row;
  issued : list (string * list param)
}.

(** ** Computations: state passing with exceptions *)

Definition M (A : Type) : Type := store -> outcome A * store.

Definition ret {A} (a : A) : M A := fun s => (Return a, s).
Definition raise {A} (e : exn) : M A := fun s => (Raise e, s).
Definition bind {A B} (c : M A) (k : A -> M B) : M B :=
  fun s => match c s with
           | (Return a, s') => k a s'
           | (Raise e, s') => (Raise e, s')
           end.
(** A step that does not touch the store. *)
Definition lift {A} (o : outcome A) : M A := fun s => (o, s).
Definition or_raise {A} (e : exn) (o : option A) : M A :=
  match o with Some a => ret a | None => raise e end.

Notation "x <~ c ; k" := (bind c (fun x => k))
  (at level 20, c at level 100, k at level 200, only parsing).

(** [for x in xs: body x] *)
Fixpoint for_each {A} (xs : list A) (body : A -> M unit) : M unit :=
  match xs with
  | [] => ret tt
  | x :: rest => _ <~ body x ; for_each rest body
  end.

(** [cursor.execute(sql, params)]: the statement is recorded as issued, then
    the server runs it on the table; [run] is the statement's meaning. *)
Definition cursor_execute {A} (sql : string) (params : list param)
    (run : gmap string row -> outcome A * gmap string row) : M A :=
  fun s =>
    let '(r, tbl) := run (table s) in
    (r, {| table := tbl; issued := issued s ++ [(sql, params)] |}).

(** ** Numbers *)

(** A Python float is written as the rational it denotes.  [int(x)]
    truncates toward zero.  The clock reading of a method is a parameter
    that ranges over all rationals; the one float operation whose rounding
    decides a stored number, the product in [get_backend_timeout], is
    rounded as binary64 does (see below). *)
Definition py_int (x : Q) : Z :=
  if Qle_bool 0 x then Qfloor x else Qceiling x.

Definition Qltb (x y : Q) : bool := negb (Qle_bool y x).

(** *** Binary64 arithmetic

    A float operation returns the exact result rounded to the nearest
    binary64 value, ties to the even significand; [None] stands for an
    infinite result. *)

(** [floor (log2 a)] for a positive rational [a]. *)
Definition Qlog2_floor (a : Q) : Z :=
  let k := Z.log2 (Qnum a) - Z.log2 (Zpos (Qden a)) in
  if Qle_bool (2 ^ k) a then k else k - 1.

Definition round_half_even (q : Q) : Z :=
  let f := Qfloor q in
  match Qcompare (q - inject_Z f) (1 # 2) with
  | Lt => f
  | Gt => f + 1
  | Eq => if Z.even f then f else f + 1
  end.

(** The significand has 53 bits; the exponent of the last bit is at least
    -1074 (subnormal numbers) and a result of [2^1024] or more is
    infinite. *)
Definition round64 (y : Q) : option Q :=
  if Qeq_bool y 0 then Some 0%Q
  else
    let a := Qabs y in
    let e := Z.max (-1074) (Qlog2_floor a - 52) in
    let r := (inject_Z (round_half_even (a / 2 ^ e)) * 2 ^ e)%Q in
    if Qle_bool (2 ^ 1024) r then None
    else Some (if Qle_bool 0 y then r else - r)%Q.

(** [a * b] and [a + b] on floats. *)
Definition float_mul (a b : Q) : option Q := round64 (a * b).
Definition float_add (a b : Q) : option Q := round64 (a + b).

(** ** The statements and what the server does with them *)

Module Sql.
Import PyStr.

Definition _get_query : string := collapse_spaces (lines [
  "";
  "        SELECT value, expires";
  "        FROM {table_name}";
  "        WHERE cache_key = %s";
  "    "]).

Definition _get_many_query : string := collapse_spaces (lines [
  "";
  "        SELECT cache_key, value, expires";
  "        FROM {table_name}";
  "        WHERE cache_key IN %s";
  "    "]).

Definition _set_many_query : string := collapse_spaces (lines [
  "";
  "        INSERT INTO {table_name} (cache_key, value, expires)";
  "        VALUES {{VALUES_CLAUSE}}";
  "        ON DUPLICATE KEY UPDATE";
  "            value=VALUES(value),";
  "            expires=VALUES(expires)";
  "    "]).

Definition _set_query : string :=
  replace "{{VALUES_CLAUSE}}" "(%s, %s, %s)" _set_many_query.

Definition _add_query : string := collapse_spaces (lines [
  "";
  "        INSERT INTO {table_name} (cache_key, value, expires)";
  "        VALUES (%s, %s, %s)";
  "        ON DUPLICATE KEY UPDATE";
  "            value=IF(expires > @tmp_now:=%s, value, VALUES(value)),";
  "            expires=IF(";
  "                expires > @tmp_now,";
  "                IFNULL(";
  "                    LEAST(LAST_INSERT_ID(444), NULL),";
  "                    expires";
  "                ),";
  "                VALUES(expires)";
  "            )";
  "    "]).

Definition _delete_query : string := lines [
  "DELETE FROM {table_name}";
  "                   WHERE cache_key = %s"].

Definition _delete_many_query : string := lines [
  "DELETE FROM {table_name}";
  "                   WHERE cache_key IN %s"].

Definition _has_key_query : string := lines [
  "SELECT cache_key FROM %s";
  "                   WHERE cache_key = %%s and expires > %%s"].

Definition _clear_query : string := "DELETE FROM %s".

(** *** Meaning of each statement on the table

    [cache_key] is the table's unique key, so the table is a finite map
    and [INSERT ... ON DUPLICATE KEY UPDATE] either adds a binding or
    rewrites the one that is there. *)

(** [SELECT value, expires ... WHERE cache_key = %s], then [fetchone()]. *)
Definition select_one (key : string) (tbl : gmap string row)
    : outcome (option row) * gmap string row :=
  (Return (tbl !! key), tbl).

(** [SELECT cache_key, value, expires ... WHERE cache_key IN %s], then
    [fetchall()].  The server is free to choose the order of the rows;
    they are listed in the order of the requested keys.  The driver writes
    the list parameter as a parenthesised list; for the empty list that is
    [IN ()], which the grammar does not allow: the server answers with a
    syntax error, as it does for an empty [VALUES]. *)
Definition select_many (keys : list string) (tbl : gmap string row)
    : outcome (list (string * bytes * Z)) * gmap string row :=
  match keys with
  | [] => (Raise ProgrammingError, tbl)
  | _ =>
      (Return (omap (fun k => (fun r => (k, value r, expires r)) <$> tbl !! k) keys),
       tbl)
  end.

(** [INSERT ... VALUES t1,...,tn ON DUPLICATE KEY UPDATE value=VALUES(value),
    expires=VALUES(expires)]: the tuples are applied in order, each one
    overwriting whatever its key held.  The grammar wants at least one
    tuple after [VALUES]; with none the server answers with a syntax
    error and the table stays as it is. *)
Definition upsert_rows (rows : list (string * bytes * Z)) (tbl : gmap string row)
    : gmap string row :=
  foldl (fun m '(k, b, e) => <[k := Row b e]> m) tbl rows.

Definition upsert (rows : list (string * bytes * Z)) (tbl : gmap string row)
    : outcome unit * gmap string row :=
  match rows with
  | [] => (Raise ProgrammingError, tbl)
  | _ => (Return tt, upsert_rows rows tbl)
  end.

(** SQL scalar functions of the add statement; [None] is [NULL]. *)
Definition LEAST (a b : option Z) : option Z :=
  match a, b with
  | Some x, Some y => Some (Z.min x y)
  | _, _ => None
  end.

Definition IFNULL (a : option Z) (b : Z) : Z :=
  match a with Some x => x | None => b end.

(** The [ON DUPLICATE KEY UPDATE] clause of [_add_query] on the row that
    is in the way.  Both assignments read the row's stored [expires]: the
    first one assigns [value] only.  [IF] evaluates the chosen branch
    only, so [LAST_INSERT_ID(444)] runs exactly when [expires > @tmp_now];
    it makes 444 the statement's insert id, which is 0 otherwise (the
    table has no AUTO_INCREMENT column).  Returns the row and the
    insert id. *)
Definition add_on_duplicate (old : row) (blob : bytes) (exp : Z) (now : Q)
    : row * Z :=
  let live := Qltb now (inject_Z (expires old)) in
  let value' := if live then value old else blob in
  if live
  then (Row value' (IFNULL (LEAST (Some 444) None) (expires old)), 444)
  else (Row value' exp, 0).

(** [_add_query] with parameters [(key, blob, exp, now)]; the result is
    what [insert_id()] reports afterwards. *)
Definition add_row (key : string) (blob : bytes) (exp : Z) (now : Q)
    (tbl : gmap string row) : outcome Z * gmap string row :=
  match tbl !! key with
  | None => (Return 0, <[key := Row blob exp]> tbl)
  | Some old =>
      let '(r, insert_id) := add_on_duplicate old blob exp now in
      (Return insert_id, <[key := r]> tbl)
  end.

(** [DELETE ... WHERE cache_key = %s] *)
Definition delete_row (key : string) (tbl : gmap string row)
    : outcome unit * gmap string row :=
  (Return tt, delete key tbl).

(** [DELETE ... WHERE cache_key IN %s]; the empty list gives [IN ()] and
    the server's syntax error here too. *)
Definition delete_rows (keys : list string) (tbl : gmap string row)
    : outcome unit * gmap string row :=
  match keys with
  | [] => (Raise ProgrammingError, tbl)
  | _ => (Return tt, foldr delete tbl keys)
  end.

(** [SELECT cache_key ... WHERE cache_key = %s and expires > %s], then
    [fetchone()]. *)
Definition select_live (key : string) (now : Z) (tbl : gmap string row)
    : outcome (option string) * gmap string row :=
  (Return (match tbl !! key with
           | Some r => if now <? expires r then Some key else None
           | None => None
           end), tbl).

(** [DELETE FROM table] *)
Definition delete_all (tbl : gmap string row) : outcome unit * gmap string row :=
  (Return tt, ∅).

End Sql.

(** ** The class [MySQLCache] *)

(** [_base_set] is called with the literal ['set'] or ['add']. *)
Inductive mode : Type := ModeSet | ModeAdd.

Module MySQLCache.
Section Methods.

(** What the class takes from outside this module:
    - [V], the Python values that [pickle] can serialise, with
      [pickle.dumps] and [pickle.loads] ([None] when [loads] raises);
    - [make_key], the framework's key function (namespacing by prefix and
      version);
    - [base_get_backend_timeout], the method of the base class that
      [get_backend_timeout] calls through [super()]: from the [timeout]
      argument and the reading of [time.time()] (seconds) it gives the
      absolute expiry in seconds, or [None];
    - [quoted_table], the result of [connections[db].ops.quote_name(self._table)];
      reads and writes are routed to the same database. *)
Variable V : Type.
Variable pickle_dumps : V -> bytes.
Variable pickle_loads : bytes -> option V.
Variable make_key : string -> option Z -> string.
Variable base_get_backend_timeout : timeout -> Q -> option Q.
Variable quoted_table : string.

(** [force_bytes] leaves a byte string as it is, and the MySQL backend's
    [process_clob] returns its argument. *)
Definition force_bytes (b : bytes) : bytes := b.
Definition process_clob (b : bytes) : bytes := b.

Definition _encode (v : V) : bytes := pickle_dumps v.

Definition _decode (b : bytes) : outcome V :=
  match pickle_loads (force_bytes b) with
  | Some v => Return v
  | None => Raise UnpicklingError
  end.

(** [validate_key]: the length test raises; the base class's
    [validate_key] that follows only emits warnings. *)
Definition validate_key (key : string) : outcome unit :=
  if (250 <? String.length key)%nat then Raise ValueError else Return tt.

(** [t] is the reading of [time.time()] inside the base class's method;
    [timeout * 1000] is a float product and [int] of an infinite float
    raises. *)
Definition get_backend_timeout (tmo : timeout) (t : Q) : outcome Z :=
  match tmo with
  | TimeoutNone => Return FOREVER_TIMEOUT
  | _ =>
      match base_get_backend_timeout tmo t with
      | Some x =>
          match float_mul x 1000 with
          | Some ms => Return (py_int ms)
          | None => Raise OverflowError
          end
      | None => Raise TypeError
      end
  end.

(** In every method below [t] is what [time.time()] returns when the
    method reads the clock. *)
Definition get (key : string) (default : V) (version : option Z) (t : Q) : M V :=
  let key := make_key key version in
  _ <~ lift (validate_key key) ;
  sql <~ or_raise KeyError (PyStr.format Sql._get_query quoted_table) ;
  row <~ cursor_execute sql [PStr key] (Sql.select_one key) ;
  match row with
  | None => ret default
  | Some r =>
      let now := py_int (t * 1000) in
      if expires r <? now then ret default
      else lift (_decode (process_clob (value r)))
  end.

(** The loop of [get_many] over the fetched rows, filling [d]. *)
Fixpoint get_many_rows (now : Z) (made_key_to_key : gmap string string)
    (rows : list (string * bytes * Z)) (d : gmap string V) : M (gmap string V) :=
  match rows with
  | [] => ret d
  | (made_key, blob, exp) :: rest =>
      if exp <? now then get_many_rows now made_key_to_key rest d
      else
        let blob := process_clob blob in
        key <~ or_raise KeyError (made_key_to_key !! made_key) ;
        v <~ lift (_decode blob) ;
        get_many_rows now made_key_to_key rest (<[key := v]> d)
  end.

(** The dictionary [{make_key(key): key for key in keys}]: a later key
    takes the place of an earlier one with the same made key. *)
Definition made_key_to_key (keys : list string) (version : option Z)
    : gmap string string :=
  foldl (fun m key => <[make_key key version := key]> m) ∅ keys.

Definition get_many (keys : list string) (version : option Z) (t : Q)
    : M (gmap string V) :=
  let made_key_to_key := made_key_to_key keys version in
  let made_keys := (map_to_list made_key_to_key).*1 in
  _ <~ for_each made_keys (fun key => lift (validate_key key)) ;
  sql <~ or_raise KeyError (PyStr.format Sql._get_many_query quoted_table) ;
  rows <~ cursor_execute sql [PList made_keys] (Sql.select_many made_keys) ;
  let now := py_int (t * 1000) in
  get_many_rows now made_key_to_key rows ∅.

(** [t0] is the clock reading inside [get_backend_timeout], [t1] the one
    [_base_set] takes itself; [now] is not truncated here. *)
Definition _base_set (m : mode) (key : string) (v : V) (tmo : timeout)
    (t0 t1 : Q) : M bool :=
  exp <~ lift (get_backend_timeout tmo t0) ;
  let now := (t1 * 1000)%Q in
  let blob := _encode v in
  match m with
  | ModeSet =>
      sql <~ or_raise KeyError (PyStr.format Sql._set_query quoted_table) ;
      _ <~ cursor_execute sql [PStr key; PBlob blob; PInt exp]
             (Sql.upsert [(key, blob, exp)]) ;
      ret true
  | ModeAdd =>
      sql <~ or_raise KeyError (PyStr.format Sql._add_query quoted_table) ;
      insert_id <~ cursor_execute sql [PStr key; PBlob blob; PInt exp; PFloat now]
                     (Sql.add_row key blob exp now) ;
      ret (negb (insert_id =? 444))
  end.

(** [set] drops the result of [_base_set] and returns [None]. *)
Definition set (key : string) (v : V) (tmo : timeout) (version : option Z)
    (t0 t1 : Q) : M unit :=
  let key := make_key key version in
  _ <~ lift (validate_key key) ;
  _ <~ _base_set ModeSet key v tmo t0 t1 ;
  ret tt.

Definition add (key : string) (v : V) (tmo : timeout) (version : option Z)
    (t0 t1 : Q) : M bool :=
  let key := make_key key version in
  _ <~ lift (validate_key key) ;
  _base_set ModeAdd key v tmo t0 t1.

(** The loop of [set_many] over the items of [data]; the triples it
    collects are handed to the cursor as one flat parameter list. *)
Fixpoint set_many_rows (data : list (string * V)) (version : option Z) (exp : Z)
    : M (list (string * bytes * Z)) :=
  match data with
  | [] => ret []
  | (key, v) :: rest =>
      let made_key := make_key key version in
      _ <~ lift (validate_key made_key) ;
      let blob := _encode v in
      more <~ set_many_rows rest version exp ;
      ret ((made_key, blob, exp) :: more)
  end.

Definition flat_params (rows : list (string * bytes * Z)) : list param :=
  concat (map (fun '(k, b, e) => [PStr k; PBlob b; PInt e]) rows).

(** [','.join('(%s, %s, %s)' for key in data)] *)
Definition values_clause {A} (data : list A) : string :=
  PyStr.join "," (map (fun _ => "(%s, %s, %s)"%string) data).

(** [data] is the mapping's items in iteration order. *)
Definition set_many (data : list (string * V)) (tmo : timeout)
    (version : option Z) (t : Q) : M unit :=
  exp <~ lift (get_backend_timeout tmo t) ;
  rows <~ set_many_rows data version exp ;
  query <~ or_raise KeyError
             (PyStr.format
                (PyStr.replace "{{VALUES_CLAUSE}}" (values_clause data)
                   Sql._set_many_query)
                quoted_table) ;
  cursor_execute query (flat_params rows) (Sql.upsert rows).

Definition delete (key : string) (version : option Z) : M unit :=
  let key := make_key key version in
  _ <~ lift (validate_key key) ;
  sql <~ or_raise KeyError (PyStr.format Sql._delete_query quoted_table) ;
  cursor_execute sql [PStr key] (Sql.delete_row key).

Definition delete_many (keys : list string) (version : option Z) : M unit :=
  let made_keys := map (fun key => make_key key version) keys in
  _ <~ for_each made_keys (fun key => lift (validate_key key)) ;
  sql <~ or_raise KeyError (PyStr.format Sql._delete_many_query quoted_table) ;
  cursor_execute sql [PList made_keys] (Sql.delete_rows made_keys).

Definition has_key (key : string) (version : option Z) (t : Q) : M bool :=
  let key := make_key key version in
  _ <~ lift (validate_key key) ;
  let now := py_int (t * 1000) in
  sql <~ or_raise TypeError (PyStr.percent Sql._has_key_query quoted_table) ;
  found <~ cursor_execute sql [PStr key; PInt now] (Sql.select_live key now) ;
  ret (match found with Some _ => true | None => false end).

Definition clear : M unit :=
  sql <~ or_raise TypeError (PyStr.percent Sql._clear_query quoted_table) ;
  cursor_execute sql [] Sql.delete_all.

End Methods.
End MySQLCache.

Import MySQLCache.

(** ** The dictionary [get_many] builds, row by row

    [T] is the table, [m] the dictionary [made_key_to_key] and [now] the
    clock reading of [get_many]. *)

Section GetManyRows.
Variable V : Type.
Variable pickle_loads : bytes -> option V.
Variable make_key : string -> option Z -> string.
Variable version : option Z.
Variable now : Z.
Variable T : gmap string row.
Variable m : gmap string string.

(** What a live, readable row contributes for the key [k]. *)
Definition content (k : string) : option V :=
  match T !! make_key k version with
  | Some r => if expires r <? now then None else pickle_loads (value r)
  | None => None
  end.

(** The dictionary after the rows of the made keys [l] were handled. *)
Definition filled (l : list string) (k : string) : option V :=
  if decide (make_key k version ∈ l /\ m !! make_key k version = Some k)
  then content k else None.

Definition fetched (mks : list string) : list (string * bytes * Z) :=
  omap (fun k => (fun r => (k, value r, expires r)) <$> T !! k) mks.

End GetManyRows.

(** ** A concrete configuration, to run the methods on

    Cached values are strings, pickled as their bytes; the key function is
    Django's default one for an empty prefix at version 1; the base class
    answers as Django's [BaseCache.get_backend_timeout] does for a default
    timeout of 300 seconds. *)
Module Demo.

Definition dumps (v : string) : bytes := list_byte_of_string v.
Definition loads (b : bytes) : option string := Some (string_of_list_byte b).

Definition make_key (key : string) (version : option Z) : string :=
  ":1:" +:+ key.

Definition base_timeout (tmo : timeout) (t : Q) : option Q :=
  match tmo with
  | DEFAULT_TIMEOUT => Some (t + 300)%Q
  | TimeoutNone => None
  | Seconds s => Some (t + (if Qeq_bool s 0 then -1 else s))%Q
  end.

Definition tbl : string := "`django_cache`".

Definition get := get string loads make_key tbl.
Definition get_many := get_many string loads make_key tbl.
Definition set := set string dumps make_key base_timeout tbl.
Definition add := add string dumps make_key base_timeout tbl.
Definition set_many := set_many string dumps make_key base_timeout tbl.
Definition has_key := has_key make_key tbl.

Definition empty : store := Store ∅ [].

(** A key of [n] characters. *)
Definition key_of_length (n : nat) : string :=
  string_of_list_ascii (repeat "a"%char n).

(** A table with one row, under the made key of ["k"], that expires at
    millisecond 1000. *)
Definition boundary : store :=
  Store {[ ":1:k"%string := Row (dumps "old") 1000 ]} [].

Definition delete := delete make_key tbl.
Definition delete_many := delete_many make_key tbl.
Definition clear := clear tbl.

(** A reader that, like [pickle.loads], fails on the empty byte string. *)
Definition strict_loads (b : bytes) : option string :=
  match b with
  | [] => None
  | _ => Some (string_of_list_byte b)
  end.

(** A table whose only row holds a blob that [strict_loads] cannot read. *)
Definition corrupt : store :=
  Store {[ ":1:k"%string := Row [] 1000 ]} [].

(** Django's base class in float arithmetic: [time.time() + timeout] is a
    float sum (finite for every clock reading that occurs). *)
Definition base_float (tmo : timeout) (t : Q) : option Q :=
  match tmo with
  | DEFAULT_TIMEOUT => float_add t 300
  | TimeoutNone => None
  | Seconds s => float_add t (if Qeq_bool s 0 then -1 else s)
  end.

(** The float that the literal [0.001] denotes. *)
Definition float_0_001 : Q := 1152921504606847 # 1152921504606846976.

(** The base class configured without a default timeout: the marker
    [DEFAULT_TIMEOUT] is mapped to [None]. *)
Definition base_no_default (tmo : timeout) (t : Q) : option Q :=
  match tmo with
  | DEFAULT_TIMEOUT => None
  | TimeoutNone => None
  | Seconds s => Some (t + (if Qeq_bool s 0 then -1 else s))%Q
  end.

End Demo.

(** ** Observations on a run *)

(** From [s] to [s'] the cursor was handed no statement, or exactly one. *)
Definition at_most_one_statement (s s' : store) : Prop :=
  issued s' = issued s \/ exists stmt, issued s' = issued s ++ [stmt].

(** A text without braces, which [str.format] copies as it is. *)
Fixpoint brace_free (s : string) : bool :=
  match s with
  | EmptyString => true
  | String c rest => negb (PyStr.is_brace c) && brace_free rest
  end.

(** The triples [set_many] collects for [data] when every key is accepted. *)
Definition rows_of {V : Type} (pickle_dumps : V -> bytes)
    (make_key : string -> option Z -> string) (version : option Z) (exp : Z)
    (data : list (string * V)) : list (string * bytes * Z) :=
  map (fun '(key, v) => (make_key key version, pickle_dumps v, exp)) data.

(** From [s] to [s'] no row other than the one of [k] changed. *)
Definition only_row_changed (k : string) (s s' : store) : Prop :=
  forall k', k' <> k -> table s' !! k' = table s !! k'.

(** ** The string methods and the templates on examples *)

Example replace_ex :
  PyStr.replace "{{V}}" "(%s)" "a {{V}} b {{V}}" = "a (%s) b (%s)"%string.
Proof. reflexivity. Qed.

Example format_ex :
  PyStr.format "FROM {table_name} {{x}}" "`t`" = Some "FROM `t` {x}"%string.
Proof. reflexivity. Qed.

Example percent_ex :
  PyStr.percent "FROM %s WHERE k = %%s" "`t`" = Some "FROM `t` WHERE k = %s"%string.
Proof. reflexivity. Qed.

Example _get_query_text :
  Sql._get_query = "SELECT value, expires FROM {table_name} WHERE cache_key = %s"%string.
Proof. reflexivity. Qed.

Example _set_query_text :
  Sql._set_query =
  "INSERT INTO {table_name} (cache_key, value, expires) VALUES (%s, %s, %s) ON DUPLICATE KEY UPDATE value=VALUES(value), expires=VALUES(expires)"%string.
Proof. reflexivity. Qed.

(** ** Numbers: truncation and comparison *)

Lemma py_int_comp (x y : Q) : (x == y)%Q -> py_int x = py_int y.
Proof.
  intros E. unfold py_int.
  assert (B : Qle_bool 0 x = Qle_bool 0 y).
  { destruct (Qle_bool 0 x) eqn:Hx, (Qle_bool 0 y) eqn:Hy; try reflexivity.
    - apply Qle_bool_iff in Hx. rewrite E in Hx. apply Qle_bool_iff in Hx. congruence.
    - apply Qle_bool_iff in Hy. rewrite <- E in Hy. apply Qle_bool_iff in Hy. congruence. }
  rewrite B. destruct (Qle_bool 0 y).
  - now apply Qfloor_comp.
  - now apply Qceiling_comp.
Qed.

Lemma py_int_inject_Z (z : Z) : py_int (inject_Z z) = z.
Proof.
  unfold py_int. destruct (Qle_bool 0 (inject_Z z)).
  - apply Qfloor_Z.
  - apply Qceiling_Z.
Qed.

Lemma Qltb_lt (x y : Q) : Qltb x y = true <-> (x < y)%Q.
Proof.
  unfold Qltb. rewrite negb_true_iff. split.
  - intros H. apply Qnot_le_lt. intros L. apply Qle_bool_iff in L. congruence.
  - intros H. destruct (Qle_bool y x) eqn:E; [|reflexivity].
    apply Qle_bool_iff in E. exfalso. exact (Qlt_not_le _ _ H E).
Qed.

Lemma Qltb_ge (x y : Q) : Qltb x y = false <-> (y <= x)%Q.
Proof.
  unfold Qltb. rewrite negb_false_iff. apply Qle_bool_iff.
Qed.

(** ** C3: the FOREVER sentinel *)

(** C3, as worded: the sentinel is not [2^64 / 2 = 9223372036854775808]. *)
Lemma FOREVER_TIMEOUT_is_not_2_64_halved :
  FOREVER_TIMEOUT <> 2 ^ 64 / 2 /\ FOREVER_TIMEOUT <> 9223372036854775808.
Proof. split; vm_compute; discriminate. Qed.

(** C3, amended: the sentinel is the largest unsigned 64-bit value,
    [2^64 - 1], shifted right by one bit (halved, rounding down):
    [2^63 - 1 = 9223372036854775807]. *)
Theorem FOREVER_TIMEOUT_value :
  BIGINT_UNSIGNED_MAX = 2 ^ 64 - 1 /\
  FOREVER_TIMEOUT = BIGINT_UNSIGNED_MAX / 2 /\
  FOREVER_TIMEOUT = 2 ^ 63 - 1 /\
  FOREVER_TIMEOUT = 9223372036854775807.
Proof. repeat split; vm_compute; reflexivity. Qed.

(** ** Binary64 rounding of a millisecond count *)

Lemma round_half_even_ge_floor (q : Q) : Qfloor q <= round_half_even q.
Proof.
  unfold round_half_even. destruct (Qcompare _ _); [|lia|lia].
  destruct (Z.even (Qfloor q)); lia.
Qed.

Lemma round_half_even_le_ceiling (q : Q) : round_half_even q <= Qceiling q.
Proof.
  assert (Hfc : Qfloor q <= Qceiling q).
  { rewrite Zle_Qle. eapply Qle_trans; [apply Qfloor_le | apply Qle_ceiling]. }
  assert (Hup : (inject_Z (Qfloor q) < q)%Q -> Qfloor q + 1 <= Qceiling q).
  { intros H. assert (L : (inject_Z (Qfloor q) < inject_Z (Qceiling q))%Q)
      by (eapply Qlt_le_trans; [exact H | apply Qle_ceiling]).
    rewrite <- Zlt_Qlt in L. lia. }
  unfold round_half_even. destruct (Qcompare _ _) eqn:E; [|exact Hfc|].
  - destruct (Z.even (Qfloor q)); [exact Hfc|].
    apply Hup. apply Qeq_alt in E.
    generalize dependent (inject_Z (Qfloor q)). intros f E. lra.
  - apply Hup. apply Qgt_alt in E.
    generalize dependent (inject_Z (Qfloor q)). intros f E. lra.
Qed.

(** The exponent of the last bit is not positive below [2^53]. *)
Lemma Qlog2_floor_small (n : Z) (d : positive) :
  0 < n -> (n # d < inject_Z (2 ^ 53))%Q -> Qlog2_floor (n # d) <= 52.
Proof.
  intros Hn Hlt. unfold Qlog2_floor. cbn [Qnum Qden].
  set (k := Z.log2 n - Z.log2 (Z.pos d)).
  assert (Hk : k <= 53).
  { destruct (Z.le_gt_cases k 53) as [H|H]; [exact H|exfalso].
    unfold Qlt in Hlt. cbn in Hlt.
    pose proof (Z.log2_spec n Hn) as [Hn1 _].
    pose proof (Z.log2_spec (Z.pos d) (Pos2Z.is_pos d)) as [_ Hd2].
    pose proof (Z.log2_nonneg (Z.pos d)) as Hld.
    assert (Hpow : 2 ^ (Z.succ (Z.log2 (Z.pos d))) * 2 ^ 53 <= 2 ^ Z.log2 n).
    { rewrite <- Z.pow_add_r by lia. apply Z.pow_le_mono_r; lia. }
    assert (Hp53 : 0 < 2 ^ 53) by (apply Z.pow_pos_nonneg; lia).
    nia. }
  destruct (Qle_bool (2 ^ k) (n # d)) eqn:Hb; [|lia].
  destruct (Z.eq_dec k 53) as [E|]; [|lia]. exfalso.
  apply Qle_bool_iff in Hb. rewrite E in Hb.
  apply (Qlt_not_le _ _ Hlt). exact Hb.
Qed.

(** Below [2^53] rounding a non-negative number never crosses an integer:
    the result lies between the integers around the exact number. *)
Lemma round64_small (y : Q) :
  (0 <= y)%Q -> (y < inject_Z (2 ^ 53))%Q ->
  exists r, round64 y = Some r /\
            (inject_Z (Qfloor y) <= r)%Q /\ (r <= inject_Z (Qfloor y + 1))%Q.
Proof.
  intros H0 H53. unfold round64.
  destruct (Qeq_bool y 0) eqn:Hz.
  - apply Qeq_bool_iff in Hz. exists 0%Q. split; [reflexivity|].
    rewrite (Qfloor_comp _ _ Hz). change (Qfloor 0) with 0. split; discriminate.
  - assert (Hpos : (0 < y)%Q).
    { apply Qle_lteq in H0 as [H0|H0]; [exact H0|].
      symmetry in H0. apply Qeq_bool_iff in H0. congruence. }
    destruct y as [n d]. assert (Hn : 0 < n).
    { unfold Qlt in Hpos. cbn in Hpos. lia. }
    assert (Ha : Qabs (n # d) = (n # d)).
    { unfold Qabs. now rewrite Z.abs_eq by lia. }
    rewrite Ha.
    set (e := Z.max (-1074) (Qlog2_floor (n # d) - 52)).
    assert (He : e <= 0).
    { pose proof (Qlog2_floor_small n d Hn H53). unfold e. lia. }
    set (K := 2 ^ (- e)).
    assert (HK : 0 < K) by (apply Z.pow_pos_nonneg; lia).
    assert (HKq : (0 < inject_Z K)%Q) by (rewrite <- (Zlt_Qlt 0); exact HK).
    assert (Hpow : (2 ^ e == / inject_Z K)%Q).
    { replace e with (- - e) at 1 by lia. rewrite Qpower_opp.
      apply Qinv_comp. unfold K. symmetry. apply (Zpower_Qpower 2). lia. }
    set (y := (n # d)) in *.
    set (F := Qfloor y).
    assert (Hq : (y / 2 ^ e == y * inject_Z K)%Q).
    { rewrite Hpow. field. intros Hc. rewrite Hc in HKq. discriminate. }
    set (m := round_half_even (y / 2 ^ e)).
    assert (Hlo : F * K <= m).
    { eapply Z.le_trans; [|apply round_half_even_ge_floor].
      rewrite <- (Qfloor_Z (F * K)). apply Qfloor_resp_le.
      rewrite Hq, inject_Z_mult. apply Qmult_le_compat_r; [apply Qfloor_le|].
      now apply Qlt_le_weak. }
    assert (Hhi : m <= (F + 1) * K).
    { eapply Z.le_trans; [apply round_half_even_le_ceiling|].
      rewrite <- (Qceiling_Z ((F + 1) * K)). apply Qceiling_resp_le.
      rewrite Hq, inject_Z_mult. apply Qmult_le_compat_r; [|now apply Qlt_le_weak].
      apply Qlt_le_weak. apply Qlt_floor. }
    assert (Hr : (inject_Z m * 2 ^ e == inject_Z m / inject_Z K)%Q)
      by (rewrite Hpow; reflexivity).
    assert (Hrlo : (inject_Z F <= inject_Z m * 2 ^ e)%Q).
    { rewrite Hr. apply Qle_shift_div_l; [exact HKq|].
      rewrite <- inject_Z_mult, <- Zle_Qle. exact Hlo. }
    assert (Hrhi : (inject_Z m * 2 ^ e <= inject_Z (F + 1))%Q).
    { rewrite Hr. apply Qle_shift_div_r; [exact HKq|].
      rewrite <- inject_Z_mult, <- Zle_Qle. exact Hhi. }
    assert (HF : F + 1 <= 2 ^ 53).
    { assert (L : (inject_Z F < inject_Z (2 ^ 53))%Q)
        by (eapply Qle_lt_trans; [apply Qfloor_le | exact H53]).
      rewrite <- Zlt_Qlt in L. lia. }
    destruct (Qle_bool (2 ^ 1024) (inject_Z m * 2 ^ e)) eqn:Hov.
    + exfalso. apply Qle_bool_iff in Hov.
      assert (L : (2 ^ 1024 <= inject_Z (2 ^ 53))%Q).
      { eapply Qle_trans; [exact Hov|]. eapply Qle_trans; [exact Hrhi|].
        rewrite <- Zle_Qle. exact HF. }
      revert L. vm_compute. intros L. apply L. reflexivity.
    + eexists. split; [reflexivity|].
      apply Qle_bool_iff in H0. rewrite H0. split; assumption.
Qed.

(** [int(x * 1000)] with the float product, for a millisecond count that is
    not negative and below [2^53]: the truncation of the exact product, or
    one more. *)
Lemma float_mul_1000_trunc (x : Q) :
  (0 <= x * 1000)%Q -> (x * 1000 < inject_Z (2 ^ 53))%Q ->
  exists ms, float_mul x 1000 = Some ms /\
             py_int (x * 1000) <= py_int ms <= py_int (x * 1000) + 1.
Proof.
  intros H0 H53. destruct (round64_small _ H0 H53) as (r & Hr & Hlo & Hhi).
  exists r. split; [exact Hr|].
  assert (Hf0 : 0 <= Qfloor (x * 1000)).
  { rewrite <- (Qfloor_Z 0). now apply Qfloor_resp_le. }
  assert (Hr0 : (0 <= r)%Q).
  { eapply Qle_trans; [|exact Hlo]. rewrite <- (Zle_Qle 0). exact Hf0. }
  unfold py_int. apply Qle_bool_iff in H0, Hr0. rewrite H0, Hr0.
  apply Qfloor_resp_le in Hlo, Hhi. rewrite Qfloor_Z in Hlo, Hhi. lia.
Qed.

Lemma get_backend_timeout_number (base : timeout -> Q -> option Q)
    (tmo : timeout) (t x : Q) :
  tmo <> TimeoutNone ->
  base tmo t = Some x ->
  (0 <= x * 1000)%Q -> (x * 1000 < inject_Z (2 ^ 53))%Q ->
  exists ms,
    float_mul x 1000 = Some ms /\
    get_backend_timeout base tmo t = Return (py_int ms) /\
    py_int (x * 1000) <= py_int ms <= py_int (x * 1000) + 1.
Proof.
  intros Hne Hb H0 H53.
  destruct (float_mul_1000_trunc x H0 H53) as (ms & Hms & Hbound).
  exists ms. split; [exact Hms|]. split; [|exact Hbound].
  unfold get_backend_timeout. destruct tmo; try congruence; now rewrite Hb, Hms.
Qed.

(** ** C7: [get_backend_timeout] *)

(** C7, as worded: at a clock reading of 1 second and a timeout of 0.001
    seconds the base class answers the float sum and the method returns
    1000, while [now_ms + s * 1000] truncated is 1001. *)
Lemma get_backend_timeout_is_not_the_exact_sum :
  let now := 1%Q in
  let s := Demo.float_0_001 in
  let now_ms := (now * 1000)%Q in
  get_backend_timeout Demo.base_float (Seconds s) now = Return 1000 /\
  py_int (now_ms + s * 1000) = 1001 /\
  get_backend_timeout Demo.base_float (Seconds s) now
  <> Return (py_int (now_ms + s * 1000)).
Proof.
  cbv zeta. split; [vm_compute; reflexivity|].
  split; [vm_compute; reflexivity|]. vm_compute. discriminate.
Qed.

(** C7, amended: [None] is mapped to the FOREVER sentinel.  For a timeout
    of [sec] seconds the base class answers an absolute expiry [x] in
    seconds (the float sum of the clock reading and the timeout) and the
    method returns [int(x * 1000)] with the float product: for a
    millisecond count [x * 1000] that is not negative and below [2^53],
    that is the exact product truncated to an integer, or one more. *)
Theorem get_backend_timeout_float_product
    (base : timeout -> Q -> option Q) (now sec x : Q) :
  get_backend_timeout base TimeoutNone now = Return FOREVER_TIMEOUT /\
  (base (Seconds sec) now = Some x ->
   (0 <= x * 1000)%Q -> (x * 1000 < inject_Z (2 ^ 53))%Q ->
   exists ms,
     float_mul x 1000 = Some ms /\
     get_backend_timeout base (Seconds sec) now = Return (py_int ms) /\
     py_int (x * 1000) <= py_int ms <= py_int (x * 1000) + 1).
Proof.
  split; [reflexivity|]. intros Hb H0 H53.
  apply (get_backend_timeout_number base (Seconds sec) now x); try assumption.
  discriminate.
Qed.

Lemma get_backend_timeout_float_product_witness :
  get_backend_timeout Demo.base_float TimeoutNone 1700000000
  = Return FOREVER_TIMEOUT /\
  exists ms,
    get_backend_timeout Demo.base_float (Seconds (5 # 2)) 1700000000
    = Return (py_int ms) /\
    1700000002500 <= py_int ms <= 1700000002501.
Proof.
  destruct (get_backend_timeout_float_product Demo.base_float 1700000000 (5 # 2)
              (7130316810485760 # 4194304)) as [H1 H2].
  split; [exact H1|].
  destruct H2 as (ms & _ & Hrun & Hb).
  - vm_compute. reflexivity.
  - vm_compute. discriminate.
  - vm_compute. reflexivity.
  - exists ms. split; [exact Hrun|]. exact Hb.
Defined.

(** ** The statement texts, for any table name *)

Section Texts.
Variable tbl : string.

Lemma format_get_query :
  PyStr.format Sql._get_query tbl
  = Some ("SELECT value, expires FROM " +:+ tbl +:+ " WHERE cache_key = %s").
Proof. reflexivity. Qed.

Lemma format_get_many_query :
  PyStr.format Sql._get_many_query tbl
  = Some ("SELECT cache_key, value, expires FROM " +:+ tbl
          +:+ " WHERE cache_key IN %s").
Proof. reflexivity. Qed.

Lemma format_set_query :
  PyStr.format Sql._set_query tbl
  = Some ("INSERT INTO " +:+ tbl
          +:+ " (cache_key, value, expires) VALUES (%s, %s, %s) ON DUPLICATE KEY UPDATE value=VALUES(value), expires=VALUES(expires)").
Proof. reflexivity. Qed.

Lemma format_add_query :
  PyStr.format Sql._add_query tbl
  = Some ("INSERT INTO " +:+ tbl
          +:+ " (cache_key, value, expires) VALUES (%s, %s, %s) ON DUPLICATE KEY UPDATE value=IF(expires > @tmp_now:=%s, value, VALUES(value)), expires=IF( expires > @tmp_now, IFNULL( LEAST(LAST_INSERT_ID(444), NULL), expires ), VALUES(expires) )").
Proof. reflexivity. Qed.

Lemma format_delete_query :
  PyStr.format Sql._delete_query tbl
  = Some ("DELETE FROM " +:+ tbl +:+ PyStr.nl
          +:+ "                   WHERE cache_key = %s").
Proof. reflexivity. Qed.

Lemma format_delete_many_query :
  PyStr.format Sql._delete_many_query tbl
  = Some ("DELETE FROM " +:+ tbl +:+ PyStr.nl
          +:+ "                   WHERE cache_key IN %s").
Proof. reflexivity. Qed.

Lemma percent_has_key_query :
  PyStr.percent Sql._has_key_query tbl
  = Some ("SELECT cache_key FROM " +:+ tbl +:+ PyStr.nl
          +:+ "                   WHERE cache_key = %s and expires > %s").
Proof. reflexivity. Qed.

Lemma percent_clear_query :
  PyStr.percent Sql._clear_query tbl = Some ("DELETE FROM " +:+ tbl +:+ "").
Proof. reflexivity. Qed.

(** The template of the bulk upsert once the clause is put in. *)
Lemma replace_values_clause (clause : string) :
  PyStr.replace "{{VALUES_CLAUSE}}" clause Sql._set_many_query
  = "INSERT INTO {table_name} (cache_key, value, expires) VALUES " +:+ clause
    +:+ " ON DUPLICATE KEY UPDATE value=VALUES(value), expires=VALUES(expires)".
Proof. reflexivity. Qed.

End Texts.

(** ** Running a method step by step *)

Lemma bind_lift_return {A B} (o : outcome A) (a : A) (k : A -> M B) (s : store) :
  o = Return a -> bind (lift o) k s = k a s.
Proof. intros ->. reflexivity. Qed.

Lemma bind_lift_raise {A B} (o : outcome A) (e : exn) (k : A -> M B) (s : store) :
  o = Raise e -> bind (lift o) k s = (Raise e, s).
Proof. intros ->. reflexivity. Qed.

Lemma bind_or_raise_some {A B} (e : exn) (o : option A) (a : A) (k : A -> M B)
    (s : store) :
  o = Some a -> bind (or_raise e o) k s = k a s.
Proof. intros ->. reflexivity. Qed.

Lemma validate_key_ok (key : string) :
  validate_key key = Return tt <-> (String.length key <= 250)%nat.
Proof.
  unfold validate_key. destruct (250 <? String.length key)%nat eqn:E.
  - apply Nat.ltb_lt in E. split; [discriminate | lia].
  - apply Nat.ltb_ge in E. split; [intros _; exact E | reflexivity].
Qed.

Lemma validate_key_too_long (key : string) :
  validate_key key = Raise ValueError <-> (251 <= String.length key)%nat.
Proof.
  unfold validate_key. destruct (250 <? String.length key)%nat eqn:E.
  - apply Nat.ltb_lt in E. split; [lia | reflexivity].
  - apply Nat.ltb_ge in E. split; [discriminate | lia].
Qed.

(** ** The write methods: [set] and [add] *)

Section Writes.
Variable V : Type.
Variable pickle_dumps : V -> bytes.
Variable make_key : string -> option Z -> string.
Variable base : timeout -> Q -> option Q.
Variable tbl : string.

Local Abbreviation _base_set := (_base_set V pickle_dumps base tbl).
Local Abbreviation set := (set V pickle_dumps make_key base tbl).
Local Abbreviation add := (add V pickle_dumps make_key base tbl).

(** [_base_set] in mode ['set'], once the expiry is computed. *)
Lemma _base_set_set (k : string) (v : V) (tmo : timeout) (t0 t1 : Q) (exp : Z)
    (s : store) :
  get_backend_timeout base tmo t0 = Return exp ->
  exists sql,
    _base_set ModeSet k v tmo t0 t1 s
    = (Return true,
       {| table := <[k := Row (pickle_dumps v) exp]> (table s);
          issued := issued s ++ [(sql, [PStr k; PBlob (pickle_dumps v); PInt exp])] |}).
Proof.
  intros He. eexists. unfold MySQLCache._base_set.
  rewrite (bind_lift_return _ exp) by exact He.
  rewrite (bind_or_raise_some _ _ _ _ _ (format_set_query tbl)).
  reflexivity.
Qed.

(** [_base_set] in mode ['add'], once the expiry is computed: the result is
    decided by [insert_id() != 444]. *)
Lemma _base_set_add (k : string) (v : V) (tmo : timeout) (t0 t1 : Q) (exp : Z)
    (s : store) :
  get_backend_timeout base tmo t0 = Return exp ->
  exists sql,
    _base_set ModeAdd k v tmo t0 t1 s
    = (let '(r, tbl') :=
         Sql.add_row k (pickle_dumps v) exp (t1 * 1000)%Q (table s) in
       (match r with
        | Return insert_id => Return (negb (insert_id =? 444))
        | Raise e => Raise e
        end,
        {| table := tbl';
           issued := issued s ++ [(sql, [PStr k; PBlob (pickle_dumps v); PInt exp;
                                         PFloat (t1 * 1000)%Q])] |})).
Proof.
  intros He. eexists. unfold MySQLCache._base_set.
  rewrite (bind_lift_return _ exp) by exact He.
  rewrite (bind_or_raise_some _ _ _ _ _ (format_add_query tbl)).
  unfold bind, cursor_execute, _encode.
  destruct (Sql.add_row k (pickle_dumps v) exp (t1 * 1000)%Q (table s)) as [[id|e] tbl'];
    reflexivity.
Qed.

(** [set] with a valid key, once the expiry is computed. *)
Lemma set_run (key : string) (v : V) (tmo : timeout) (version : option Z)
    (t0 t1 : Q) (exp : Z) (s : store) :
  let k := make_key key version in
  (String.length k <= 250)%nat ->
  get_backend_timeout base tmo t0 = Return exp ->
  exists sql,
    set key v tmo version t0 t1 s
    = (Return tt,
       {| table := <[k := Row (pickle_dumps v) exp]> (table s);
          issued := issued s ++ [(sql, [PStr k; PBlob (pickle_dumps v); PInt exp])] |}).
Proof.
  intros k Hk He.
  destruct (_base_set_set k v tmo t0 t1 exp s He) as [sql Hs].
  exists sql. unfold MySQLCache.set. fold k.
  rewrite (bind_lift_return _ tt) by (apply validate_key_ok; exact Hk).
  unfold bind at 1. rewrite Hs. reflexivity.
Qed.



Lemma add_row_expired (k : string) (blob : bytes) (exp : Z) (now : Q)
    (m : gmap string row) (r : row) :
  m !! k = Some r -> (inject_Z (expires r) <= now)%Q ->
  Sql.add_row k blob exp now m = (Return 0, <[k := Row blob exp]> m).
Proof.
  intros H L. unfold Sql.add_row, Sql.add_on_duplicate. rewrite H.
  apply Qltb_ge in L. rewrite L. reflexivity.
Qed.

Lemma add_row_live (k : string) (blob : bytes) (exp : Z) (now : Q)
    (m : gmap string row) (r : row) :
  m !! k = Some r -> (now < inject_Z (expires r))%Q ->
  Sql.add_row k blob exp now m = (Return 444, m).
Proof.
  intros H L. unfold Sql.add_row, Sql.add_on_duplicate. rewrite H.
  apply Qltb_lt in L. rewrite L. cbn.
  f_equal. destruct r as [b e]. cbn. apply insert_id. exact H.
Qed.


End Writes.

(** ** Key validation comes first *)

Lemma for_each_validate_ok (ks : list string) (s : store) :
  (forall k, k ∈ ks -> (String.length k <= 250)%nat) ->
  for_each ks (fun k => lift (validate_key k)) s = (Return tt, s).
Proof.
  induction ks as [|k ks IH]; intros H; [reflexivity|].
  cbn [for_each].
  rewrite (bind_lift_return _ tt)
    by (apply validate_key_ok, H; left).
  apply IH. intros k' Hk'. apply H. now right.
Qed.

Lemma for_each_validate_raises (ks : list string) (s : store) :
  (exists k, k ∈ ks /\ (251 <= String.length k)%nat) ->
  for_each ks (fun k => lift (validate_key k)) s = (Raise ValueError, s).
Proof.
  induction ks as [|k ks IH]; intros (k' & Hin & Hlen).
  - inversion Hin.
  - cbn [for_each].
    destruct (validate_key k) as [[]|e] eqn:Ev.
    + rewrite (bind_lift_return _ tt) by reflexivity.
      apply IH. exists k'. split; [|exact Hlen].
      apply elem_of_cons in Hin as [->|Hin]; [|exact Hin].
      apply validate_key_ok in Ev. lia.
    + assert (e = ValueError) as ->.
      { unfold validate_key in Ev.
        destruct (250 <? String.length k)%nat; congruence. }
      reflexivity.
Qed.

(** The dictionary [made_key_to_key] of [get_many]. *)

Section MadeKeys.
Variable make_key : string -> option Z -> string.
Variable version : option Z.

Local Abbreviation step :=
  (fun (m : gmap string string) key => <[make_key key version := key]> m).

Lemma foldl_made_keys_lookup (keys : list string) (m0 : gmap string string)
    (mk k : string) :
  foldl step m0 keys !! mk = Some k ->
  (k ∈ keys /\ make_key k version = mk) \/ m0 !! mk = Some k.
Proof.
  revert m0. induction keys as [|x keys IH]; intros m0 H; [now right|].
  cbn in H. apply IH in H as [[Hin E]|H].
  - left. split; [now right | exact E].
  - destruct (decide (make_key x version = mk)) as [E|N].
    + rewrite E, lookup_insert_eq in H. inversion H; subst x.
      left. split; [now left | exact E].
    + rewrite lookup_insert_ne in H by exact N. now right.
Qed.

Lemma foldl_made_keys_dom (keys : list string) (m0 : gmap string string)
    (k : string) :
  k ∈ keys -> is_Some (foldl step m0 keys !! make_key k version).
Proof.
  revert m0. induction keys as [|x keys IH]; intros m0 H; [inversion H|].
  cbn. apply elem_of_cons in H as [->|H]; [|now apply IH].
  clear IH.
  assert (Hm : is_Some (<[make_key x version := x]> m0 !! make_key x version))
    by (rewrite lookup_insert_eq; eauto).
  revert Hm. generalize (<[make_key x version := x]> m0).
  induction keys as [|y keys IH]; intros m Hm; [exact Hm|].
  cbn. apply IH.
  destruct (decide (make_key y version = make_key x version)) as [E|N].
  - rewrite E, lookup_insert_eq. eauto.
  - rewrite lookup_insert_ne by exact N. exact Hm.
Qed.

Lemma made_key_to_key_sound (keys : list string) (mk k : string) :
  made_key_to_key make_key keys version !! mk = Some k ->
  k ∈ keys /\ make_key k version = mk.
Proof.
  intros H. apply foldl_made_keys_lookup in H as [H|H]; [exact H|].
  rewrite lookup_empty in H. discriminate.
Qed.

Lemma made_key_to_key_dom (keys : list string) (k : string) :
  k ∈ keys -> is_Some (made_key_to_key make_key keys version !! make_key k version).
Proof. apply foldl_made_keys_dom. Qed.

(** The list [made_keys]: the dictionary's keys. *)
Lemma made_keys_elem (keys : list string) (mk : string) :
  mk ∈ (map_to_list (made_key_to_key make_key keys version)).*1 <->
  exists k, k ∈ keys /\ make_key k version = mk.
Proof.
  rewrite list_elem_of_fmap. split.
  - intros ([mk' k] & -> & H). apply elem_of_map_to_list in H.
    apply made_key_to_key_sound in H. exists k. exact H.
  - intros (k & Hin & <-).
    destruct (made_key_to_key_dom keys k Hin) as [k' Hk'].
    exists (make_key k version, k'). split; [reflexivity|].
    now apply elem_of_map_to_list.
Qed.

Lemma made_keys_nonempty (keys : list string) :
  keys <> [] -> (map_to_list (made_key_to_key make_key keys version)).*1 <> [].
Proof.
  destruct keys as [|k keys]; [congruence|]. intros _ E.
  assert (H : make_key k version
              ∈ (map_to_list (made_key_to_key make_key (k :: keys) version)).*1).
  { apply made_keys_elem. exists k. split; [left | reflexivity]. }
  rewrite E in H. inversion H.
Qed.

End MadeKeys.

(** The two statements with a list parameter, on a list with an element
    and on the empty list. *)
Lemma select_many_nonempty (keys : list string) (T : gmap string row) :
  keys <> [] -> Sql.select_many keys T = (Return (fetched T keys), T).
Proof. destruct keys; [congruence | reflexivity]. Qed.

Lemma delete_rows_nonempty (keys : list string) (T : gmap string row) :
  keys <> [] -> Sql.delete_rows keys T = (Return tt, foldr stdpp.base.delete T keys).
Proof. destruct keys; [congruence | reflexivity]. Qed.

Lemma select_many_table (keys : list string) (T : gmap string row) :
  snd (Sql.select_many keys T) = T.
Proof. destruct keys; reflexivity. Qed.

Lemma get_backend_timeout_not_ValueError (base : timeout -> Q -> option Q)
    (tmo : timeout) (t : Q) :
  get_backend_timeout base tmo t <> Raise ValueError.
Proof.
  unfold get_backend_timeout.
  destruct tmo; try discriminate;
    (destruct (base _ t); [destruct (float_mul _ _)|]; discriminate).
Qed.

Section Keys.
Variable V : Type.
Variable pickle_dumps : V -> bytes.
Variable pickle_loads : bytes -> option V.
Variable make_key : string -> option Z -> string.
Variable base : timeout -> Q -> option Q.
Variable tbl : string.

Local Abbreviation get := (get V pickle_loads make_key tbl).
Local Abbreviation get_many := (get_many V pickle_loads make_key tbl).
Local Abbreviation set := (set V pickle_dumps make_key base tbl).
Local Abbreviation add := (add V pickle_dumps make_key base tbl).
Local Abbreviation set_many := (set_many V pickle_dumps make_key base tbl).
Local Abbreviation delete := (delete make_key tbl).
Local Abbreviation delete_many := (delete_many make_key tbl).
Local Abbreviation has_key := (has_key make_key tbl).

(** A method that starts with [validate_key] stops there on a long key. *)
Lemma rejected_before_store {A} (k : string) (body : M A) (s : store) :
  (251 <= String.length k)%nat ->
  bind (lift (validate_key k)) (fun _ => body) s = (Raise ValueError, s).
Proof.
  intros H. apply bind_lift_raise. now apply validate_key_too_long.
Qed.

Lemma accepted_then_body {A} (k : string) (body : M A) (s : store) :
  (String.length k <= 250)%nat ->
  bind (lift (validate_key k)) (fun _ => body) s = body s.
Proof.
  intros H. apply (bind_lift_return _ tt). now apply validate_key_ok.
Qed.

(** C5: the key the methods validate is the one [make_key] returns.  When
    it has exactly 250 characters, [validate_key] accepts it and none of
    [get], [set], [add], [delete], [has_key] raises the key error; when it
    has 251 characters or more, [validate_key] raises [ValueError] and each
    of these methods raises it with the store exactly as it was: no
    statement was issued and the table is unchanged. *)
Theorem key_length_boundary (key : string) (version : option Z) (default v : V)
    (tmo : timeout) (t t0 t1 : Q) (s : store) :
  let k := make_key key version in
  (String.length k = 250%nat ->
   validate_key k = Return tt /\
   fst (get key default version t s) <> Raise ValueError /\
   fst (set key v tmo version t0 t1 s) <> Raise ValueError /\
   fst (add key v tmo version t0 t1 s) <> Raise ValueError /\
   fst (delete key version s) <> Raise ValueError /\
   fst (has_key key version t s) <> Raise ValueError) /\
  ((251 <= String.length k)%nat ->
   validate_key k = Raise ValueError /\
   get key default version t s = (Raise ValueError, s) /\
   set key v tmo version t0 t1 s = (Raise ValueError, s) /\
   add key v tmo version t0 t1 s = (Raise ValueError, s) /\
   delete key version s = (Raise ValueError, s) /\
   has_key key version t s = (Raise ValueError, s)).
Proof.
  intros k. split.
  - intros Hlen. assert (Hk : (String.length k <= 250)%nat) by lia.
    split; [now apply validate_key_ok|].
    repeat split.
    + unfold MySQLCache.get. fold k. rewrite accepted_then_body by exact Hk.
      rewrite (bind_or_raise_some _ _ _ _ _ (format_get_query tbl)).
      unfold bind, cursor_execute, Sql.select_one, lift, ret, _decode.
      destruct (table s !! k) as [r|]; cbn; [|discriminate].
      destruct (expires r <? _); cbn; [discriminate|].
      destruct (pickle_loads _); cbn; discriminate.
    + unfold MySQLCache.set. fold k. rewrite accepted_then_body by exact Hk.
      unfold bind at 1.
      destruct (get_backend_timeout base tmo t0) as [exp|e] eqn:He.
      * destruct (_base_set_set V pickle_dumps base tbl k v tmo t0 t1 exp s He)
          as [sql ->]. cbn. discriminate.
      * unfold _base_set. rewrite (bind_lift_raise _ e) by exact He. cbn.
        intros E. injection E as ->. revert He.
        apply get_backend_timeout_not_ValueError.
    + unfold MySQLCache.add. fold k. rewrite accepted_then_body by exact Hk.
      destruct (get_backend_timeout base tmo t0) as [exp|e] eqn:He.
      * destruct (_base_set_add V pickle_dumps base tbl k v tmo t0 t1 exp s He)
          as [sql ->].
        destruct (Sql.add_row _ _ _ _ _) as [[id|e] tbl'] eqn:Ea; cbn;
          [discriminate|].
        unfold Sql.add_row in Ea. destruct (table s !! k); [|discriminate].
        destruct (Sql.add_on_duplicate _ _ _ _). discriminate.
      * unfold _base_set. rewrite (bind_lift_raise _ e) by exact He. cbn.
        intros E. injection E as ->. revert He.
        apply get_backend_timeout_not_ValueError.
    + unfold MySQLCache.delete. fold k. rewrite accepted_then_body by exact Hk.
      rewrite (bind_or_raise_some _ _ _ _ _ (format_delete_query tbl)).
      cbn. discriminate.
    + unfold MySQLCache.has_key. fold k. rewrite accepted_then_body by exact Hk.
      rewrite (bind_or_raise_some _ _ _ _ _ (percent_has_key_query tbl)).
      cbn. discriminate.
  - intros Hlen. split; [now apply validate_key_too_long|].
    repeat split; now apply rejected_before_store.
Qed.

(** The bulk methods validate every made key before they reach the cursor. *)
Lemma set_many_rows_rejects (data : list (string * V)) (version : option Z)
    (exp : Z) (s : store) :
  (exists key v, (key, v) ∈ data /\ (251 <= String.length (make_key key version))%nat) ->
  set_many_rows V pickle_dumps make_key data version exp s = (Raise ValueError, s).
Proof.
  induction data as [|[key0 v0] data IH]; intros (key & v & Hin & Hlen).
  - inversion Hin.
  - cbn [set_many_rows].
    destruct (le_lt_dec 251 (String.length (make_key key0 version))) as [L|L].
    + now apply rejected_before_store.
    + rewrite accepted_then_body by lia.
      unfold bind. rewrite IH; [reflexivity|].
      exists key, v. split; [|exact Hlen].
      apply elem_of_cons in Hin as [E|Hin]; [|exact Hin].
      inversion E; subst. lia.
Qed.

(** X1: one made key of more than 250 characters anywhere among the keys
    makes [get_many] and [delete_many] raise [ValueError] with the store as
    it was; so does [set_many], once its expiry is computed, for a long key
    anywhere in the mapping: no entry of the batch is written. *)
Lemma bulk_rejected_before_store (keys : list string) (data : list (string * V))
    (version : option Z) (tmo : timeout) (t : Q) (exp : Z) (s : store) :
  ((exists key, key ∈ keys /\ (251 <= String.length (make_key key version))%nat) ->
   get_many keys version t s = (Raise ValueError, s) /\
   delete_many keys version s = (Raise ValueError, s)) /\
  ((exists key v, (key, v) ∈ data /\
                  (251 <= String.length (make_key key version))%nat) ->
   get_backend_timeout base tmo t = Return exp ->
   set_many data tmo version t s = (Raise ValueError, s)).
Proof.
  split.
  - intros (key & Hin & Hlen). split.
    + unfold MySQLCache.get_many. unfold bind at 1.
      rewrite for_each_validate_raises; [reflexivity|].
      exists (make_key key version). split; [|exact Hlen].
      apply made_keys_elem. eauto.
    + unfold MySQLCache.delete_many. unfold bind at 1.
      rewrite for_each_validate_raises; [reflexivity|].
      exists (make_key key version). split; [|exact Hlen].
      apply list_elem_of_fmap. eauto.
  - intros Hbad He. unfold MySQLCache.set_many.
    rewrite (bind_lift_return _ exp) by exact He.
    unfold bind at 1. now rewrite set_many_rows_rejects.
Qed.

End Keys.

(** ** The read methods and expiry *)

Section Reads.
Variable V : Type.
Variable pickle_dumps : V -> bytes.
Variable pickle_loads : bytes -> option V.
Variable make_key : string -> option Z -> string.
Variable base : timeout -> Q -> option Q.
Variable tbl : string.

Local Abbreviation _decode := (_decode V pickle_loads).
Local Abbreviation _encode := (_encode V pickle_dumps).
Local Abbreviation get := (get V pickle_loads make_key tbl).
Local Abbreviation set := (set V pickle_dumps make_key base tbl).
Local Abbreviation add := (add V pickle_dumps make_key base tbl).
Local Abbreviation has_key := (has_key make_key tbl).

(** [get] with a valid key: one SELECT, the table untouched, and the result
    read off the row. *)
Lemma get_run (key : string) (default : V) (version : option Z) (t : Q)
    (s : store) :
  let k := make_key key version in
  (String.length k <= 250)%nat ->
  exists sql,
    get key default version t s
    = (match table s !! k with
       | None => Return default
       | Some r =>
           if expires r <? py_int (t * 1000) then Return default
           else _decode (value r)
       end,
       {| table := table s; issued := issued s ++ [(sql, [PStr k])] |}).
Proof.
  intros k Hk. eexists. unfold MySQLCache.get. fold k.
  rewrite accepted_then_body by exact Hk.
  rewrite (bind_or_raise_some _ _ _ _ _ (format_get_query tbl)).
  unfold bind, cursor_execute, Sql.select_one, ret, lift, process_clob.
  destruct (table s !! k) as [r|]; [|reflexivity].
  destruct (expires r <? _); reflexivity.
Qed.

(** [has_key] with a valid key: one SELECT, the table untouched. *)
Lemma has_key_run (key : string) (version : option Z) (t : Q) (s : store) :
  let k := make_key key version in
  let now := py_int (t * 1000) in
  (String.length k <= 250)%nat ->
  exists sql,
    has_key key version t s
    = (Return (match table s !! k with
               | Some r => now <? expires r
               | None => false
               end),
       {| table := table s; issued := issued s ++ [(sql, [PStr k; PInt now])] |}).
Proof.
  intros k now Hk. eexists. unfold MySQLCache.has_key. fold k.
  rewrite accepted_then_body by exact Hk.
  rewrite (bind_or_raise_some _ _ _ _ _ (percent_has_key_query tbl)).
  unfold bind, cursor_execute, Sql.select_live, ret. fold now.
  destruct (table s !! k) as [r|]; [|reflexivity].
  destruct (now <? expires r); reflexivity.
Qed.

(** A row with [expires < now] is hidden by [get]; one with
    [expires <= now] is hidden by [has_key]. *)
Lemma get_hides_expired (key : string) (default : V) (version : option Z)
    (t : Q) (s : store) (r : row) :
  (String.length (make_key key version) <= 250)%nat ->
  table s !! make_key key version = Some r ->
  expires r < py_int (t * 1000) ->
  fst (get key default version t s) = Return default.
Proof.
  intros Hk Hr He. destruct (get_run key default version t s Hk) as [sql ->].
  rewrite Hr. apply Z.ltb_lt in He. rewrite He. reflexivity.
Qed.

Lemma has_key_hides_expired (key : string) (version : option Z)
    (t : Q) (s : store) (r : row) :
  (String.length (make_key key version) <= 250)%nat ->
  table s !! make_key key version = Some r ->
  expires r <= py_int (t * 1000) ->
  fst (has_key key version t s) = Return false.
Proof.
  intros Hk Hr He. destruct (has_key_run key version t s Hk) as [sql ->].
  rewrite Hr. apply Z.ltb_ge in He. cbn. rewrite He. reflexivity.
Qed.

(** C9: take a row whose [expires] equals the clock reading in milliseconds,
    a valid key and a timeout whose expiry [exp] can be computed.  At that
    reading [add] finds [expires > now] false, replaces the row and returns
    [True]; at the same reading [get], whose test is [expires < now],
    returns the value stored in the row. *)
Theorem add_and_get_disagree_at_expiry (key : string) (v2 default old : V)
    (tmo : timeout) (version : option Z) (t0 t : Q) (exp : Z) (r : row)
    (s : store) :
  let k := make_key key version in
  (String.length k <= 250)%nat ->
  get_backend_timeout base tmo t0 = Return exp ->
  table s !! k = Some r ->
  (inject_Z (expires r) == t * 1000)%Q ->
  pickle_loads (value r) = Some old ->
  (exists s', add key v2 tmo version t0 t s = (Return true, s') /\
              table s' = <[k := Row (pickle_dumps v2) exp]> (table s)) /\
  (exists s', get key default version t s = (Return old, s') /\
              table s' = table s).
Proof.
  intros k Hk He Hr Hnow Hold. split.
  - destruct (_base_set_add V pickle_dumps base tbl k v2 tmo t0 t exp s He)
      as [sql Hs].
    unfold MySQLCache.add. fold k. rewrite accepted_then_body by exact Hk.
    rewrite Hs.
    rewrite (add_row_expired _ _ _ _ _ _ Hr) by (rewrite Hnow; apply Qle_refl).
    eexists. split; reflexivity.
  - destruct (get_run key default version t s Hk) as [sql ->]. fold k.
    rewrite Hr.
    rewrite <- (py_int_comp _ _ Hnow), py_int_inject_Z, Z.ltb_irrefl.
    unfold MySQLCache._decode, force_bytes. rewrite Hold.
    eexists. split; reflexivity.
Qed.


End Reads.

(** ** [get_many] *)

Section GetMany.
Variable V : Type.
Variable pickle_loads : bytes -> option V.
Variable make_key : string -> option Z -> string.
Variable tbl : string.
Variable version : option Z.
Variable now : Z.
Variable T : gmap string row.
Variable m : gmap string string.

Local Abbreviation get_many_rows := (get_many_rows V pickle_loads).

Hypothesis m_sound : forall mk k, m !! mk = Some k -> make_key k version = mk.

Local Abbreviation content := (content V pickle_loads make_key version now T).
Local Abbreviation filled := (filled V pickle_loads make_key version now T m).
Local Abbreviation fetched := (fetched T).

Lemma filled_snoc_other (l : list string) (mk k : string) :
  ~ (make_key k version = mk /\ m !! mk = Some k) ->
  filled (l ++ [mk]) k = filled l k.
Proof.
  intros N. unfold filled.
  destruct (decide (make_key k version ∈ l /\ _)) as [[H1 H2]|H];
    destruct (decide (make_key k version ∈ l ++ [mk] /\ _)) as [[H3 H4]|H'];
    try reflexivity.
  - exfalso. apply H'. split; [|exact H2]. apply elem_of_app. now left.
  - exfalso. apply elem_of_app in H3 as [H3|H3].
    + apply H. now split.
    + apply list_elem_of_singleton in H3. apply N. split; [exact H3|].
      now rewrite <- H3.
Qed.

Lemma filled_snoc_new (l : list string) (k : string) :
  m !! make_key k version = Some k ->
  filled (l ++ [make_key k version]) k = content k.
Proof.
  intros H. unfold filled. rewrite decide_True; [reflexivity|].
  split; [|exact H]. apply elem_of_app. right. now left.
Qed.

Lemma filled_before (l : list string) (k : string) :
  make_key k version ∉ l -> filled l k = None.
Proof.
  intros H. unfold filled. rewrite decide_False; [reflexivity|]. tauto.
Qed.

Lemma get_many_rows_fills (rest done : list string) (d : gmap string V)
    (s : store) :
  NoDup (done ++ rest) ->
  (forall mk, mk ∈ rest -> is_Some (m !! mk)) ->
  (forall mk r, mk ∈ rest -> T !! mk = Some r -> ~ expires r < now ->
                is_Some (pickle_loads (value r))) ->
  (forall k, d !! k = filled done k) ->
  exists d',
    get_many_rows now m (fetched rest) d s = (Return d', s) /\
    forall k, d' !! k = filled (done ++ rest) k.
Proof.
  revert done d. induction rest as [|mk rest IH]; intros done d Hnd Hm Hl Hd.
  - exists d. split; [reflexivity|]. now rewrite app_nil_r.
  - assert (Hnd' : NoDup ((done ++ [mk]) ++ rest))
      by now rewrite <- app_assoc.
    assert (Hfresh : mk ∉ done).
    { apply NoDup_app in Hnd as (_ & Hnd & _). intros Hin.
      apply (Hnd mk Hin). now left. }
    assert (Hm' : forall mk', mk' ∈ rest -> is_Some (m !! mk'))
      by (intros; apply Hm; now right).
    assert (Hl' : forall mk' r, mk' ∈ rest -> T !! mk' = Some r ->
                    ~ expires r < now -> is_Some (pickle_loads (value r)))
      by (intros mk' r ?; apply Hl; now right).
    assert (Hskip :
              (forall k, make_key k version = mk -> content k = None) ->
              forall k, d !! k = filled (done ++ [mk]) k).
    { intros Hc k. rewrite Hd.
      destruct (decide (make_key k version = mk /\ m !! mk = Some k)) as [[E Hk]|N].
      - subst mk. rewrite filled_snoc_new by exact Hk.
        rewrite Hc by reflexivity. now apply filled_before.
      - now rewrite filled_snoc_other. }
    replace (done ++ mk :: rest) with ((done ++ [mk]) ++ rest)
      by now rewrite <- app_assoc.
    unfold fetched. cbn [omap list_omap]. fold (fetched rest).
    destruct (T !! mk) as [r|] eqn:Hr; cbn [fmap option_fmap option_map].
    + cbn [MySQLCache.get_many_rows].
      destruct (expires r <? now) eqn:Hexp.
      * apply (IH (done ++ [mk]) d Hnd' Hm' Hl'). apply Hskip.
        intros k <-. unfold content. now rewrite Hr, Hexp.
      * destruct (Hm mk) as [k0 Hk0]; [now left|].
        destruct (Hl mk r) as [v0 Hv0]; [now left|exact Hr|
          apply Z.ltb_ge in Hexp; lia|].
        rewrite (bind_or_raise_some _ _ k0) by exact Hk0.
        unfold MySQLCache._decode, force_bytes, process_clob. rewrite Hv0.
        rewrite (bind_lift_return _ v0) by reflexivity.
        apply (IH (done ++ [mk]) (<[k0 := v0]> d) Hnd' Hm' Hl').
        intros k. pose proof (m_sound _ _ Hk0) as Emk.
        destruct (decide (k0 = k)) as [<-|N].
        -- rewrite lookup_insert_eq. subst mk.
           rewrite filled_snoc_new by exact Hk0.
           unfold content. now rewrite Hr, Hexp.
        -- rewrite lookup_insert_ne by exact N. rewrite Hd.
           rewrite filled_snoc_other; [reflexivity|].
           intros [_ Hk]. congruence.
    + apply (IH (done ++ [mk]) d Hnd' Hm' Hl'). apply Hskip.
      intros k <-. unfold content. now rewrite Hr.
Qed.

End GetMany.

(** X21: let the list of keys be non-empty, the key function injective on
    keys, every made key valid and every requested row with [expires >= now]
    hold a blob that [pickle] can read.  Then [get_many] returns a
    dictionary, after one SELECT that leaves the table as it was, and the
    dictionary maps [k] to [v] exactly when [k] was requested and its row
    exists, has [expires >= now] (the loop skips a row only when
    [expires < now]) and decodes to [v].  Requested keys without a row or
    with [expires < now] are simply not in it. *)
Theorem get_many_exactly_live_keys (V : Type) (pickle_loads : bytes -> option V)
    (make_key : string -> option Z -> string) (tbl : string)
    (keys : list string) (version : option Z) (t : Q) (s : store) :
  let now := py_int (t * 1000) in
  keys <> [] ->
  (forall k1 k2, make_key k1 version = make_key k2 version -> k1 = k2) ->
  (forall k, k ∈ keys -> (String.length (make_key k version) <= 250)%nat) ->
  (forall k r, k ∈ keys -> table s !! make_key k version = Some r ->
               now <= expires r -> is_Some (pickle_loads (value r))) ->
  exists (d : gmap string V) (s' : store),
    get_many V pickle_loads make_key tbl keys version t s = (Return d, s') /\
    table s' = table s /\
    (exists stmt, issued s' = issued s ++ [stmt]) /\
    forall k v,
      d !! k = Some v <->
      k ∈ keys /\
      exists r, table s !! make_key k version = Some r /\
                now <= expires r /\ pickle_loads (value r) = Some v.
Proof.
  intros now Hne Hinj Hvalid Hload.
  set (m := made_key_to_key make_key keys version).
  set (mks := (map_to_list m).*1).
  assert (Hmne : mks <> []) by now apply made_keys_nonempty.
  assert (Hsound : forall mk k, m !! mk = Some k -> make_key k version = mk).
  { intros mk k H. now apply made_key_to_key_sound in H. }
  assert (Hmks : forall mk, mk ∈ mks -> exists k, k ∈ keys /\ make_key k version = mk).
  { intros mk H. now apply made_keys_elem in H. }
  pose (s0 := {| table := table s;
                 issued := issued s
                   ++ [("SELECT cache_key, value, expires FROM " +:+ tbl
                        +:+ " WHERE cache_key IN %s", [PList mks])] |}).
  destruct (get_many_rows_fills V pickle_loads make_key version now (table s) m
              Hsound mks [] ∅ s0) as (d & Hrun & Hd).
  - apply NoDup_fst_map_to_list.
  - intros mk H. apply list_elem_of_fmap in H as ([mk' k] & -> & H).
    apply elem_of_map_to_list in H. eauto.
  - intros mk r H Hr Hexp. destruct (Hmks mk H) as (k & Hin & <-).
    apply (Hload k r Hin Hr). lia.
  - intros k. rewrite lookup_empty. symmetry. apply filled_before. inversion 1.
  - exists d, s0. split; [|split; [|split]].
    + unfold get_many. fold m. fold mks. unfold bind at 1.
      rewrite for_each_validate_ok.
      2:{ intros mk H. destruct (Hmks mk H) as (k & Hin & <-). now apply Hvalid. }
      rewrite (bind_or_raise_some _ _ _ _ _ (format_get_many_query tbl)).
      unfold bind, cursor_execute. rewrite select_many_nonempty by exact Hmne.
      fold now. fold s0. exact Hrun.
    + reflexivity.
    + eexists. reflexivity.
    + intros k v. rewrite Hd. cbn [app]. unfold filled, content. split.
      * destruct (decide _) as [[Hin Hk]|]; [|discriminate].
        intros Hc. split; [now apply made_key_to_key_sound in Hk|].
        destruct (table s !! make_key k version) as [r|]; [|discriminate].
        exists r. split; [reflexivity|].
        destruct (expires r <? now) eqn:E; [discriminate|].
        apply Z.ltb_ge in E. now split.
      * intros (Hin & r & Hr & Hexp & Hv).
        rewrite decide_True.
        -- rewrite Hr. apply Z.ltb_ge in Hexp. now rewrite Hexp.
        -- split; [apply made_keys_elem; eauto|].
           destruct (made_key_to_key_dom make_key version keys k Hin) as [k' Hk'].
           fold m in Hk'. rewrite Hk'. f_equal.
           apply Hinj. now apply Hsound.
Qed.

(** ** [set_many] on an empty mapping *)

Example values_clause_two_rows :
  values_clause [("a", 1); ("b", 2)] = "(%s, %s, %s),(%s, %s, %s)"%string.
Proof. reflexivity. Qed.

(** C10: for a timeout whose expiry can be computed, [set_many] on the empty
    mapping still calls [cursor.execute]: the joined clause is the empty
    string, so the statement text has nothing between [VALUES] and
    [ON DUPLICATE KEY UPDATE], and the parameter list is empty.  The call
    is therefore not a no-op on the list of issued statements; the server
    answers such a text with a syntax error and the table stays as it was. *)
Theorem set_many_empty_issues_statement (V : Type) (pickle_dumps : V -> bytes)
    (make_key : string -> option Z -> string) (base : timeout -> Q -> option Q)
    (tbl : string) (tmo : timeout) (version : option Z) (t : Q) (exp : Z)
    (s : store) :
  get_backend_timeout base tmo t = Return exp ->
  let text := "INSERT INTO " +:+ tbl
              +:+ " (cache_key, value, expires) VALUES  ON DUPLICATE KEY UPDATE value=VALUES(value), expires=VALUES(expires)" in
  let s' := {| table := table s; issued := issued s ++ [(text, [])] |} in
  values_clause (@nil (string * V)) = ""%string /\
  set_many V pickle_dumps make_key base tbl [] tmo version t s
  = (Raise ProgrammingError, s') /\
  issued s' <> issued s.
Proof.
  intros He text s'. split; [reflexivity|]. split.
  - unfold set_many. rewrite (bind_lift_return _ exp) by exact He.
    reflexivity.
  - cbn. intros E. apply (f_equal length) in E.
    rewrite length_app in E. cbn in E. lia.
Qed.

(** ** C2: reads at the instant of expiry *)

(** C2 at a concrete table: the row of ["k"] has [expires = 1000] and the
    clock reads 1 second, so [now = 1000] and [expires <= now].  [has_key]
    answers [False], but [get] returns the stored value rather than the
    default and [get_many] keeps the key in its dictionary. *)
Lemma reads_at_expiry_instant :
  expires (Row (Demo.dumps "old") 1000) <= py_int (1 * 1000) /\
  fst (Demo.has_key "k" None 1 Demo.boundary) = Return false /\
  fst (Demo.get "k" "default" None 1 Demo.boundary) = Return "old"%string /\
  (exists d, fst (Demo.get_many ["k"%string] None 1 Demo.boundary) = Return d /\
             d !! "k"%string = Some "old"%string).
Proof.
  split; [vm_compute; discriminate|].
  split; [vm_compute; reflexivity|].
  split; [vm_compute; reflexivity|].
  eexists. split; vm_compute; reflexivity.
Qed.

(** ** C6: [get_many] at the instant of expiry and on no keys *)

(** C6 at concrete inputs.  The row of ["k"] has [expires = 1000] and the
    clock reads 1 second, so the entry is expired ([expires <= now]) and
    [has_key] answers [False]; yet [get_many] over ["k"] and ["d"] keeps
    ["k"] in its dictionary (["d"], which has no row, is left out).  And
    [get_many] over the empty list returns no dictionary: it raises the
    error the server gives for [IN ()]. *)
Lemma get_many_at_expiry_instant :
  expires (Row (Demo.dumps "old") 1000) <= py_int (1 * 1000) /\
  fst (Demo.has_key "k" None 1 Demo.boundary) = Return false /\
  (exists d, fst (Demo.get_many ["k"; "d"]%string None 1 Demo.boundary) = Return d /\
             d !! "k"%string = Some "old"%string /\
             d !! "d"%string = None) /\
  fst (Demo.get_many [] None 1 Demo.boundary) = Raise ProgrammingError.
Proof.
  split; [vm_compute; discriminate|].
  split; [vm_compute; reflexivity|].
  split; [|vm_compute; reflexivity].
  eexists. repeat split; vm_compute; reflexivity.
Qed.

(** ** The list methods on no keys *)

(** X22: [get_many] and [delete_many] have no early return for an empty
    list of keys: each still hands its statement to the cursor, with an
    empty list parameter, the server rejects [IN ()], and the call raises
    with the table as it was. *)
Theorem empty_key_list_is_rejected (V : Type) (pickle_loads : bytes -> option V)
    (make_key : string -> option Z -> string) (tbl : string)
    (version : option Z) (t : Q) (s : store) :
  (exists sql,
     get_many V pickle_loads make_key tbl [] version t s
     = (Raise ProgrammingError,
        {| table := table s; issued := issued s ++ [(sql, [PList []])] |})) /\
  (exists sql,
     delete_many make_key tbl [] version s
     = (Raise ProgrammingError,
        {| table := table s; issued := issued s ++ [(sql, [PList []])] |})).
Proof.
  split; eexists.
  - unfold get_many, made_key_to_key. cbn [foldl].
    rewrite map_to_list_empty. cbn [fmap list_fmap for_each].
    unfold bind at 1, ret at 1.
    rewrite (bind_or_raise_some _ _ _ _ _ (format_get_many_query tbl)).
    reflexivity.
  - unfold delete_many. cbn [map for_each]. unfold bind at 1, ret at 1.
    rewrite (bind_or_raise_some _ _ _ _ _ (format_delete_many_query tbl)).
    reflexivity.
Qed.

(** ** The theorems at the concrete configuration *)



Lemma key_length_boundary_witness :
  validate_key (Demo.make_key (Demo.key_of_length 247) None) = Return tt /\
  Demo.get (Demo.key_of_length 248) "default" None 1 Demo.empty
  = (Raise ValueError, Demo.empty).
Proof.
  split.
  - destruct (key_length_boundary string Demo.dumps Demo.loads Demo.make_key
                Demo.base_timeout Demo.tbl (Demo.key_of_length 247) None
                "default" "v" TimeoutNone 1 1 1 Demo.empty) as [Hacc _].
    apply Hacc. reflexivity.
  - destruct (key_length_boundary string Demo.dumps Demo.loads Demo.make_key
                Demo.base_timeout Demo.tbl (Demo.key_of_length 248) None
                "default" "v" TimeoutNone 1 1 1 Demo.empty) as [_ Hrej].
    apply Hrej. vm_compute. lia.
Defined.

Lemma add_and_get_disagree_at_expiry_witness :
  (exists s', Demo.add "k" "new" TimeoutNone None 1 1 Demo.boundary
              = (Return true, s')) /\
  (exists s', Demo.get "k" "default" None 1 Demo.boundary
              = (Return "old"%string, s')).
Proof.
  destruct (add_and_get_disagree_at_expiry string Demo.dumps Demo.loads
              Demo.make_key Demo.base_timeout Demo.tbl
              "k" "new" "default" "old" TimeoutNone None 1 1 FOREVER_TIMEOUT
              (Row (Demo.dumps "old") 1000) Demo.boundary)
    as [(s1 & Hadd & _) (s2 & Hget & _)].
  - simpl. lia.
  - reflexivity.
  - reflexivity.
  - reflexivity.
  - reflexivity.
  - split; [exists s1; exact Hadd | exists s2; exact Hget].
Defined.



Lemma get_many_exactly_live_keys_witness :
  exists d s',
    Demo.get_many ["k"; "d"]%string None (1 # 2) Demo.boundary = (Return d, s') /\
    d !! "k"%string = Some "old"%string /\
    d !! "d"%string = None.
Proof.
  destruct (get_many_exactly_live_keys string Demo.loads Demo.make_key Demo.tbl
              ["k"; "d"]%string None (1 # 2) Demo.boundary)
    as (d & s' & Hrun & _ & _ & Hd).
  - discriminate.
  - intros k1 k2 E. injection E. trivial.
  - intros k Hin. apply elem_of_cons in Hin as [->|Hin];
      [simpl; lia|].
    apply elem_of_cons in Hin as [->|Hin]; [simpl; lia | inversion Hin].
  - intros k r _ _ _. eexists. reflexivity.
  - exists d, s'. split; [exact Hrun|]. split.
    + apply Hd. split; [left|].
      exists (Row (Demo.dumps "old") 1000).
      split; [reflexivity|]. split; [vm_compute; discriminate | reflexivity].
    + destruct (d !! "d"%string) as [v|] eqn:E; [|reflexivity].
      apply Hd in E as (_ & r & Hr & _). vm_compute in Hr. discriminate.
Defined.

Lemma set_many_empty_issues_statement_witness :
  Demo.set_many [] TimeoutNone None 1 Demo.empty
  = (Raise ProgrammingError,
     Store ∅ [("INSERT INTO `django_cache` (cache_key, value, expires) VALUES  ON DUPLICATE KEY UPDATE value=VALUES(value), expires=VALUES(expires)"%string, [])]).
Proof.
  destruct (set_many_empty_issues_statement string Demo.dumps Demo.make_key
              Demo.base_timeout Demo.tbl TimeoutNone None 1 FOREVER_TIMEOUT
              Demo.empty) as (_ & H & _).
  - reflexivity.
  - exact H.
Defined.

(** ** Further properties of the methods *)

(** The loops that run before or after the cursor call leave the store
    alone, whatever they return. *)
Lemma for_each_validate_pure (ks : list string) (s : store) :
  snd (for_each ks (fun k => lift (validate_key k)) s) = s.
Proof.
  induction ks as [|k ks IH]; [reflexivity|].
  cbn [for_each]. unfold bind, lift at 1.
  destruct (validate_key k); [exact IH | reflexivity].
Qed.

Lemma get_many_rows_pure (V : Type) (pickle_loads : bytes -> option V) (now : Z)
    (m : gmap string string) (rows : list (string * bytes * Z))
    (d : gmap string V) (s : store) :
  snd (get_many_rows V pickle_loads now m rows d s) = s.
Proof.
  revert d. induction rows as [|[[mk blob] exp] rows IH]; intros d; [reflexivity|].
  cbn [get_many_rows]. destruct (exp <? now); [apply IH|].
  unfold bind, or_raise, lift, ret, raise.
  destruct (m !! mk); [|reflexivity].
  destruct (_decode V pickle_loads (process_clob blob)); [apply IH | reflexivity].
Qed.

Lemma set_many_rows_pure (V : Type) (pickle_dumps : V -> bytes)
    (make_key : string -> option Z -> string) (data : list (string * V))
    (version : option Z) (exp : Z) (s : store) :
  snd (set_many_rows V pickle_dumps make_key data version exp s) = s.
Proof.
  induction data as [|[key v] data IH]; [reflexivity|].
  cbn [set_many_rows]. unfold bind, lift at 1.
  destruct (validate_key (make_key key version)); [|reflexivity].
  destruct (set_many_rows V pickle_dumps make_key data version exp s) as [[rows|e] s1];
    cbn in IH |- *; exact IH.
Qed.

Section More.
Variable V : Type.
Variable pickle_dumps : V -> bytes.
Variable pickle_loads : bytes -> option V.
Variable make_key : string -> option Z -> string.
Variable base : timeout -> Q -> option Q.
Variable tbl : string.

Local Abbreviation _decode := (_decode V pickle_loads).
Local Abbreviation get := (get V pickle_loads make_key tbl).
Local Abbreviation get_many := (get_many V pickle_loads make_key tbl).
Local Abbreviation set := (set V pickle_dumps make_key base tbl).
Local Abbreviation add := (add V pickle_dumps make_key base tbl).
Local Abbreviation set_many := (set_many V pickle_dumps make_key base tbl).
Local Abbreviation delete := (delete make_key tbl).
Local Abbreviation delete_many := (delete_many make_key tbl).
Local Abbreviation has_key := (has_key make_key tbl).
Local Abbreviation clear := (clear tbl).

(** [delete] with a valid key: one DELETE, whether or not the row exists. *)
Lemma delete_run (key : string) (version : option Z) (s : store) :
  let k := make_key key version in
  (String.length k <= 250)%nat ->
  exists sql,
    delete key version s
    = (Return tt,
       {| table := stdpp.base.delete k (table s);
          issued := issued s ++ [(sql, [PStr k])] |}).
Proof.
  intros k Hk. eexists. unfold MySQLCache.delete. fold k.
  rewrite accepted_then_body by exact Hk.
  rewrite (bind_or_raise_some _ _ _ _ _ (format_delete_query tbl)).
  reflexivity.
Qed.

Lemma clear_run (s : store) :
  exists sql,
    clear s = (Return tt, {| table := ∅; issued := issued s ++ [(sql, [])] |}).
Proof.
  eexists. unfold MySQLCache.clear.
  rewrite (bind_or_raise_some _ _ _ _ _ (percent_clear_query tbl)).
  reflexivity.
Qed.

(** X2: with a valid key, [delete] completes normally whether or not the key
    has a row; afterwards the key has no row, every other row is as before,
    and at any clock reading [get] returns the default and [has_key]
    answers [False]. *)
Theorem delete_then_reads_miss (key : string) (default : V)
    (version : option Z) (t : Q) (s : store) :
  let k := make_key key version in
  (String.length k <= 250)%nat ->
  exists s1,
    delete key version s = (Return tt, s1) /\
    table s1 !! k = None /\
    only_row_changed k s s1 /\
    fst (get key default version t s1) = Return default /\
    fst (has_key key version t s1) = Return false.
Proof.
  intros k Hk. destruct (delete_run key version s Hk) as [sql Hdel].
  eexists. split; [exact Hdel|]. cbn [table].
  assert (Hgone : stdpp.base.delete k (table s) !! k = None) by apply lookup_delete_eq.
  split; [exact Hgone|]. split.
  - intros k' Hne. cbn. now apply lookup_delete_ne.
  - split.
    + match goal with |- context [get _ _ _ _ ?s1] =>
        destruct (get_run V pickle_loads make_key tbl key default version t s1 Hk)
          as [sql' ->] end.
      cbn [table fst]. fold k. now rewrite Hgone.
    + match goal with |- context [has_key _ _ _ ?s1] =>
        destruct (has_key_run make_key tbl key version t s1 Hk) as [sql' ->] end.
      cbn [table fst]. fold k. now rewrite Hgone.
Qed.

(** X3: [delete] is idempotent on the table: deleting the same valid key a
    second time also completes normally and leaves the table as the first
    delete left it. *)
Theorem delete_twice (key : string) (version : option Z) (s : store) :
  (String.length (make_key key version) <= 250)%nat ->
  exists s1 s2,
    delete key version s = (Return tt, s1) /\
    delete key version s1 = (Return tt, s2) /\
    table s2 = table s1.
Proof.
  intros Hk. destruct (delete_run key version s Hk) as [sql Hdel].
  match type of Hdel with _ = (_, ?s1) =>
    exists s1; destruct (delete_run key version s1 Hk) as [sql' Hdel'] end.
  eexists. split; [exact Hdel|]. split; [exact Hdel'|].
  cbn. apply delete_delete_eq.
Qed.

(** X4: [clear] completes normally and leaves no row; afterwards,
    for any valid key and clock reading, [get] returns the default and
    [has_key] answers [False]. *)
Theorem clear_then_reads_miss (key : string) (default : V)
    (version : option Z) (t : Q) (s : store) :
  (String.length (make_key key version) <= 250)%nat ->
  exists s1,
    clear s = (Return tt, s1) /\
    table s1 = ∅ /\
    fst (get key default version t s1) = Return default /\
    fst (has_key key version t s1) = Return false.
Proof.
  intros Hk. destruct (clear_run s) as [sql Hc].
  eexists. split; [exact Hc|]. split; [reflexivity|]. split.
  - match goal with |- context [get _ _ _ _ ?s1] =>
      destruct (get_run V pickle_loads make_key tbl key default version t s1 Hk)
        as [sql' ->] end.
    cbn [table fst]. now rewrite lookup_empty.
  - match goal with |- context [has_key _ _ _ ?s1] =>
      destruct (has_key_run make_key tbl key version t s1 Hk) as [sql' ->] end.
    cbn [table fst]. now rewrite lookup_empty.
Qed.

(** [_base_set] in either mode: at most one statement, and no row but the
    one of its key is touched. *)
Lemma _base_set_footprint (m : mode) (k : string) (v : V) (tmo : timeout)
    (t0 t1 : Q) (s s' : store) (r : outcome bool) :
  _base_set V pickle_dumps base tbl m k v tmo t0 t1 s = (r, s') ->
  at_most_one_statement s s' /\ only_row_changed k s s'.
Proof.
  unfold _base_set. unfold bind at 1, lift at 1.
  destruct (get_backend_timeout base tmo t0) as [exp|e].
  2:{ intros [= <- <-]. split; [left; reflexivity | intros k' _; reflexivity]. }
  destruct m.
  - rewrite (bind_or_raise_some _ _ _ _ _ (format_set_query tbl)). cbn.
    intros [= <- <-]. split.
    + right. eexists. reflexivity.
    + intros k' Hne. cbn. now apply lookup_insert_ne.
  - rewrite (bind_or_raise_some _ _ _ _ _ (format_add_query tbl)).
    unfold bind, cursor_execute, Sql.add_row.
    destruct (table s !! k) as [r0|].
    + destruct (Sql.add_on_duplicate _ _ _ _) as [r' id]. cbn.
      intros [= <- <-]. split.
      * right. eexists. reflexivity.
      * intros k' Hne. cbn. now apply lookup_insert_ne.
    + cbn. intros [= <- <-]. split.
      * right. eexists. reflexivity.
      * intros k' Hne. cbn. now apply lookup_insert_ne.
Qed.

(** X5: the read methods never change the table, whatever the key, the
    clock reading and the rows are, and whether they return or raise:
    expired rows are skipped, not deleted. *)
Theorem reads_leave_table (key : string) (keys : list string) (default : V)
    (version : option Z) (t : Q) (s : store) :
  table (snd (get key default version t s)) = table s /\
  table (snd (get_many keys version t s)) = table s /\
  table (snd (has_key key version t s)) = table s.
Proof.
  repeat split.
  - unfold MySQLCache.get. unfold bind at 1, lift at 1.
    destruct (validate_key _); [|reflexivity].
    rewrite (bind_or_raise_some _ _ _ _ _ (format_get_query tbl)).
    unfold bind, cursor_execute, Sql.select_one, ret, lift.
    destruct (table s !! _) as [r|]; [|reflexivity].
    destruct (expires r <? _); reflexivity.
  - unfold MySQLCache.get_many. unfold bind at 1.
    pose proof (for_each_validate_pure
                  (map_to_list (made_key_to_key make_key keys version)).*1 s) as Hp.
    destruct (for_each _ _ s) as [[[]|e] s1]; cbn in Hp; subst s1; [|reflexivity].
    rewrite (bind_or_raise_some _ _ _ _ _ (format_get_many_query tbl)).
    unfold bind, cursor_execute.
    match goal with |- context [Sql.select_many ?l ?T] =>
      pose proof (select_many_table l T) as Ht;
      destruct (Sql.select_many l T) as [[rows|e] T'] end;
      cbn in Ht; subst T'; [|reflexivity].
    now rewrite get_many_rows_pure.
  - unfold MySQLCache.has_key. unfold bind at 1, lift at 1.
    destruct (validate_key _); [|reflexivity].
    rewrite (bind_or_raise_some _ _ _ _ _ (percent_has_key_query tbl)).
    unfold bind, cursor_execute, Sql.select_live, ret.
    destruct (table s !! _) as [r|]; [|reflexivity].
    destruct (_ <? expires r); reflexivity.
Qed.

(** X6: every public method hands the cursor at most one statement, on every
    input and on every path, normal or exceptional. *)
Theorem one_statement_per_call (key : string) (keys : list string)
    (data : list (string * V)) (default v : V) (tmo : timeout)
    (version : option Z) (t t0 t1 : Q) (s : store) :
  at_most_one_statement s (snd (get key default version t s)) /\
  at_most_one_statement s (snd (get_many keys version t s)) /\
  at_most_one_statement s (snd (set key v tmo version t0 t1 s)) /\
  at_most_one_statement s (snd (add key v tmo version t0 t1 s)) /\
  at_most_one_statement s (snd (set_many data tmo version t s)) /\
  at_most_one_statement s (snd (delete key version s)) /\
  at_most_one_statement s (snd (delete_many keys version s)) /\
  at_most_one_statement s (snd (has_key key version t s)) /\
  at_most_one_statement s (snd (clear s)).
Proof.
  assert (Hone : forall sql ps tb,
            at_most_one_statement s {| table := tb; issued := issued s ++ [(sql, ps)] |})
    by (intros; right; eexists; reflexivity).
  assert (Hnone : at_most_one_statement s s) by (left; reflexivity).
  repeat split.
  - unfold MySQLCache.get. unfold bind at 1, lift at 1.
    destruct (validate_key _); [|exact Hnone].
    rewrite (bind_or_raise_some _ _ _ _ _ (format_get_query tbl)).
    unfold bind, cursor_execute, Sql.select_one, ret, lift.
    destruct (table s !! _) as [r|]; [|apply Hone].
    destruct (expires r <? _); apply Hone.
  - unfold MySQLCache.get_many. unfold bind at 1.
    pose proof (for_each_validate_pure
                  (map_to_list (made_key_to_key make_key keys version)).*1 s) as Hp.
    destruct (for_each _ _ s) as [[[]|e] s1]; cbn in Hp; subst s1; [|exact Hnone].
    rewrite (bind_or_raise_some _ _ _ _ _ (format_get_many_query tbl)).
    unfold bind, cursor_execute.
    match goal with |- context [Sql.select_many ?l ?T] =>
      destruct (Sql.select_many l T) as [[rows|e] T'] end; [|apply Hone].
    rewrite get_many_rows_pure. apply Hone.
  - unfold MySQLCache.set. unfold bind at 1, lift at 1.
    destruct (validate_key _); [|exact Hnone].
    unfold bind, ret.
    destruct (_base_set _ _ _ _ _ _ _ _ _ _ _) as [[b|e] s1] eqn:E;
      apply _base_set_footprint in E as [H _]; exact H.
  - unfold MySQLCache.add. unfold bind at 1, lift at 1.
    destruct (validate_key _); [|exact Hnone].
    destruct (_base_set _ _ _ _ _ _ _ _ _ _ _) as [r s1] eqn:E.
    apply _base_set_footprint in E. apply E.
  - unfold MySQLCache.set_many. unfold bind at 1, lift at 1.
    destruct (get_backend_timeout base tmo t) as [exp|e]; [|exact Hnone].
    unfold bind at 1.
    pose proof (set_many_rows_pure V pickle_dumps make_key data version exp s) as Hp.
    destruct (set_many_rows _ _ _ _ _ _ s) as [[rows|e] s1]; cbn in Hp; subst s1;
      [|exact Hnone].
    unfold bind, or_raise.
    destruct (PyStr.format _ tbl) as [q|]; [|exact Hnone].
    unfold ret, cursor_execute. destruct (Sql.upsert rows (table s)). apply Hone.
  - unfold MySQLCache.delete. unfold bind at 1, lift at 1.
    destruct (validate_key _); [|exact Hnone].
    rewrite (bind_or_raise_some _ _ _ _ _ (format_delete_query tbl)). apply Hone.
  - unfold MySQLCache.delete_many. unfold bind at 1.
    pose proof (for_each_validate_pure
                  (map (fun key0 => make_key key0 version) keys) s) as Hp.
    destruct (for_each _ _ s) as [[[]|e] s1]; cbn in Hp; subst s1; [|exact Hnone].
    rewrite (bind_or_raise_some _ _ _ _ _ (format_delete_many_query tbl)).
    unfold cursor_execute.
    match goal with |- context [Sql.delete_rows ?l ?T] =>
      destruct (Sql.delete_rows l T) as [r T'] end.
    apply Hone.
  - unfold MySQLCache.has_key. unfold bind at 1, lift at 1.
    destruct (validate_key _); [|exact Hnone].
    rewrite (bind_or_raise_some _ _ _ _ _ (percent_has_key_query tbl)).
    unfold bind, cursor_execute, Sql.select_live, ret.
    destruct (table s !! _) as [r|]; [|apply Hone].
    destruct (_ <? expires r); apply Hone.
  - destruct (clear_run s) as [sql ->]. apply Hone.
Qed.

(** X7: [set], [add] and [delete] touch no row but the one of their made
    key, on every input and on every path. *)
Theorem single_key_writes_touch_one_row (key : string) (v : V) (tmo : timeout)
    (version : option Z) (t0 t1 : Q) (s : store) :
  let k := make_key key version in
  only_row_changed k s (snd (set key v tmo version t0 t1 s)) /\
  only_row_changed k s (snd (add key v tmo version t0 t1 s)) /\
  only_row_changed k s (snd (delete key version s)).
Proof.
  intros k. assert (Hnone : only_row_changed k s s) by (intros k' _; reflexivity).
  repeat split.
  - unfold MySQLCache.set. fold k. unfold bind at 1, lift at 1.
    destruct (validate_key _); [|exact Hnone].
    unfold bind, ret.
    destruct (_base_set _ _ _ _ _ _ _ _ _ _ _) as [[b|e] s1] eqn:E;
      apply _base_set_footprint in E as [_ H]; exact H.
  - unfold MySQLCache.add. fold k. unfold bind at 1, lift at 1.
    destruct (validate_key _); [|exact Hnone].
    destruct (_base_set _ _ _ _ _ _ _ _ _ _ _) as [r s1] eqn:E.
    apply _base_set_footprint in E. apply E.
  - unfold MySQLCache.delete. fold k. unfold bind at 1, lift at 1.
    destruct (validate_key _); [|exact Hnone].
    rewrite (bind_or_raise_some _ _ _ _ _ (format_delete_query tbl)).
    intros k' Hne. cbn. now apply lookup_delete_ne.
Qed.

End More.

(** ** [set_many] on a mapping with entries *)

Lemma format_from_brace_free (tbl c rest : string) :
  brace_free c = true ->
  PyStr.format_from tbl 0 (c +:+ rest)
  = String.append c <$> PyStr.format_from tbl 0 rest.
Proof.
  induction c as [|a c IH]; intros H.
  - change ("" +:+ rest) with rest.
    destruct (PyStr.format_from tbl 0 rest); reflexivity.
  - cbn in H. apply andb_true_iff in H as [Ha Hc].
    apply negb_true_iff in Ha.
    change (String a c +:+ rest) with (String a (c +:+ rest)).
    cbn [PyStr.format_from].
    assert (Hne1 : a <> "{"%char /\ a <> "}"%char).
    { unfold PyStr.is_brace in Ha. apply orb_false_iff in Ha as [H1 H2].
      apply bool_decide_eq_false in H1, H2. now split. }
    destruct Hne1 as [N1 N2].
    assert (P1 : String.prefix "{{" (String a (c +:+ rest)) = false).
    { cbn [String.prefix].
      destruct (Ascii.ascii_dec "{" a) as [E|_]; [now subst|reflexivity]. }
    assert (P2 : String.prefix "}}" (String a (c +:+ rest)) = false).
    { cbn [String.prefix].
      destruct (Ascii.ascii_dec "}" a) as [E|_]; [now subst|reflexivity]. }
    assert (P3 : String.prefix "{table_name}" (String a (c +:+ rest)) = false).
    { cbn [String.prefix].
      destruct (Ascii.ascii_dec "{" a) as [E|_]; [now subst|reflexivity]. }
    rewrite P1, P2, P3, Ha, IH by exact Hc.
    now destruct (PyStr.format_from tbl 0 rest).
Qed.

Lemma brace_free_values_clause {A} (data : list A) :
  brace_free (values_clause data) = true.
Proof.
  unfold values_clause, PyStr.join.
  induction data as [|x data IH]; [reflexivity|].
  destruct data as [|y data]; [reflexivity|].
  change (brace_free ("(%s, %s, %s)" +:+ "," +:+
            String.concat "," (map (fun _ : A => "(%s, %s, %s)"%string) (y :: data)))
          = true).
  cbn -[String.concat map]. exact IH.
Qed.

(** The text of the bulk upsert, for any clause without braces. *)
Lemma format_set_many_query (tbl clause : string) :
  brace_free clause = true ->
  PyStr.format (PyStr.replace "{{VALUES_CLAUSE}}" clause Sql._set_many_query) tbl
  = Some ("INSERT INTO " +:+ tbl +:+ " (cache_key, value, expires) VALUES "
          +:+ clause
          +:+ " ON DUPLICATE KEY UPDATE value=VALUES(value), expires=VALUES(expires)").
Proof.
  intros H. rewrite replace_values_clause. unfold PyStr.format.
  change ("INSERT INTO {table_name} (cache_key, value, expires) VALUES " +:+
          clause +:+
          " ON DUPLICATE KEY UPDATE value=VALUES(value), expires=VALUES(expires)")
    with ("INSERT INTO " +:+ ("{table_name} (cache_key, value, expires) VALUES " +:+
          clause +:+
          " ON DUPLICATE KEY UPDATE value=VALUES(value), expires=VALUES(expires)")).
  rewrite format_from_brace_free by reflexivity.
  change (PyStr.format_from tbl 0
            ("{table_name} (cache_key, value, expires) VALUES " +:+ clause +:+
             " ON DUPLICATE KEY UPDATE value=VALUES(value), expires=VALUES(expires)"))
    with (String.append tbl <$>
            PyStr.format_from tbl 0
              (" (cache_key, value, expires) VALUES " +:+ (clause +:+
               " ON DUPLICATE KEY UPDATE value=VALUES(value), expires=VALUES(expires)"))).
  rewrite format_from_brace_free by reflexivity.
  rewrite format_from_brace_free by exact H.
  reflexivity.
Qed.

Lemma upsert_rows_notin (rows : list (string * bytes * Z)) (T : gmap string row)
    (mk : string) :
  mk ∉ rows.*1.*1 -> Sql.upsert_rows rows T !! mk = T !! mk.
Proof.
  revert T. induction rows as [|[[k b] e] rows IH]; intros T H; [reflexivity|].
  cbn in H. apply not_elem_of_cons in H as [Hne Hnot].
  unfold Sql.upsert_rows. cbn [foldl]. fold (Sql.upsert_rows rows (<[k := Row b e]> T)).
  rewrite IH by exact Hnot. now apply lookup_insert_ne.
Qed.

Lemma upsert_rows_in (rows : list (string * bytes * Z)) (T : gmap string row)
    (mk : string) (b : bytes) (e : Z) :
  NoDup rows.*1.*1 -> (mk, b, e) ∈ rows ->
  Sql.upsert_rows rows T !! mk = Some (Row b e).
Proof.
  revert T. induction rows as [|[[k b0] e0] rows IH]; intros T Hnd Hin;
    [inversion Hin|].
  cbn in Hnd. apply NoDup_cons in Hnd as [Hfresh Hnd].
  unfold Sql.upsert_rows. cbn [foldl].
  fold (Sql.upsert_rows rows (<[k := Row b0 e0]> T)).
  apply elem_of_cons in Hin as [E|Hin].
  - inversion E; subst k b0 e0.
    rewrite upsert_rows_notin by exact Hfresh. apply lookup_insert_eq.
  - now apply IH.
Qed.

Lemma length_flat_params (rows : list (string * bytes * Z)) :
  length (flat_params rows) = (3 * length rows)%nat.
Proof.
  unfold flat_params. induction rows as [|[[k b] e] rows IH]; [reflexivity|].
  cbn [map concat]. rewrite length_app, IH. cbn. lia.
Qed.

Section Bulk.
Variable V : Type.
Variable pickle_dumps : V -> bytes.
Variable pickle_loads : bytes -> option V.
Variable make_key : string -> option Z -> string.
Variable base : timeout -> Q -> option Q.
Variable tbl : string.

Local Abbreviation get := (get V pickle_loads make_key tbl).
Local Abbreviation get_many := (get_many V pickle_loads make_key tbl).
Local Abbreviation set_many := (set_many V pickle_dumps make_key base tbl).
Local Abbreviation delete_many := (delete_many make_key tbl).
Local Abbreviation clear := (clear tbl).

Lemma set_many_rows_ok (data : list (string * V)) (version : option Z) (exp : Z)
    (s : store) :
  (forall key v, (key, v) ∈ data ->
                 (String.length (make_key key version) <= 250)%nat) ->
  set_many_rows V pickle_dumps make_key data version exp s
  = (Return (rows_of pickle_dumps make_key version exp data), s).
Proof.
  induction data as [|[key v] data IH]; intros H; [reflexivity|].
  cbn [set_many_rows].
  rewrite accepted_then_body by (apply (H key v); left).
  unfold bind. rewrite IH by (intros k' v' Hin; apply (H k' v'); now right).
  reflexivity.
Qed.

(** [set_many] on a mapping with at least one entry and valid keys. *)
Lemma set_many_run (data : list (string * V)) (tmo : timeout)
    (version : option Z) (t : Q) (exp : Z) (s : store) :
  data <> [] ->
  (forall key v, (key, v) ∈ data ->
                 (String.length (make_key key version) <= 250)%nat) ->
  get_backend_timeout base tmo t = Return exp ->
  let rows := rows_of pickle_dumps make_key version exp data in
  set_many data tmo version t s
  = (Return tt,
     {| table := Sql.upsert_rows rows (table s);
        issued := issued s
          ++ [("INSERT INTO " +:+ tbl +:+ " (cache_key, value, expires) VALUES "
               +:+ values_clause data
               +:+ " ON DUPLICATE KEY UPDATE value=VALUES(value), expires=VALUES(expires)",
               flat_params rows)] |}).
Proof.
  intros Hne Hvalid He rows. unfold MySQLCache.set_many.
  rewrite (bind_lift_return _ exp) by exact He.
  unfold bind at 1. rewrite set_many_rows_ok by exact Hvalid.
  rewrite (bind_or_raise_some _ _ _ _ _
             (format_set_many_query tbl _ (brace_free_values_clause data))).
  fold rows. unfold cursor_execute, Sql.upsert.
  destruct rows as [|r rows'] eqn:E; [|reflexivity].
  destruct data as [|[k v] data]; [congruence | discriminate E].
Qed.

(** X8: [set_many] on a mapping with at least one entry, valid keys, pairwise
    different made keys and a computable expiry [exp] completes normally
    with one statement that carries three parameters per entry; afterwards
    the row of every entry holds its pickled value and [exp], and every
    other row is as before. *)
Theorem set_many_upserts_every_entry (data : list (string * V)) (tmo : timeout)
    (version : option Z) (t : Q) (exp : Z) (s : store) :
  data <> [] ->
  (forall key v, (key, v) ∈ data ->
                 (String.length (make_key key version) <= 250)%nat) ->
  NoDup (map (fun kv => make_key kv.1 version) data) ->
  get_backend_timeout base tmo t = Return exp ->
  exists s1 sql params,
    set_many data tmo version t s = (Return tt, s1) /\
    issued s1 = issued s ++ [(sql, params)] /\
    length params = (3 * length data)%nat /\
    (forall key v, (key, v) ∈ data ->
       table s1 !! make_key key version = Some (Row (pickle_dumps v) exp)) /\
    (forall mk, (forall key v, (key, v) ∈ data -> make_key key version <> mk) ->
       table s1 !! mk = table s !! mk).
Proof.
  intros Hne Hvalid Hnd He.
  pose proof (set_many_run data tmo version t exp s Hne Hvalid He) as Hrun.
  cbv zeta in Hrun.
  assert (Hkeys : (rows_of pickle_dumps make_key version exp data).*1.*1
                  = map (fun kv => make_key kv.1 version) data).
  { clear. induction data as [|[k v] d IH]; [reflexivity|].
    cbn. now rewrite <- IH. }
  eexists _, _, _. split; [exact Hrun|]. cbn [issued table].
  split; [reflexivity|]. split.
  - rewrite length_flat_params. unfold rows_of. now rewrite length_map.
  - split.
    + intros key v Hin. apply upsert_rows_in.
      * now rewrite Hkeys.
      * apply list_elem_of_fmap. exists (key, v). now split.
    + intros mk Hmk. apply upsert_rows_notin. rewrite Hkeys.
      intros Hin. apply list_elem_of_fmap in Hin as ([key v] & -> & Hin).
      now apply (Hmk key v).
Qed.

(** [get_many] when every row it meets can be decoded: the dictionary, key
    by key. *)
Lemma get_many_run (keys : list string) (version : option Z) (t : Q) (s : store) :
  let now := py_int (t * 1000) in
  keys <> [] ->
  (forall k1 k2, make_key k1 version = make_key k2 version -> k1 = k2) ->
  (forall k, k ∈ keys -> (String.length (make_key k version) <= 250)%nat) ->
  (forall k r, k ∈ keys -> table s !! make_key k version = Some r ->
               now <= expires r -> is_Some (pickle_loads (value r))) ->
  exists d stmt,
    get_many keys version t s
    = (Return d, {| table := table s; issued := issued s ++ [stmt] |}) /\
    forall k, d !! k = if decide (k ∈ keys)
                       then content V pickle_loads make_key version now (table s) k
                       else None.
Proof.
  intros now Hne Hinj Hvalid Hload.
  set (m := made_key_to_key make_key keys version).
  set (mks := (map_to_list m).*1).
  assert (Hmne : mks <> []) by now apply made_keys_nonempty.
  assert (Hsound : forall mk k, m !! mk = Some k -> make_key k version = mk).
  { intros mk k H. now apply made_key_to_key_sound in H. }
  assert (Hmks : forall mk, mk ∈ mks -> exists k, k ∈ keys /\ make_key k version = mk).
  { intros mk H. now apply made_keys_elem in H. }
  pose (stmt := ("SELECT cache_key, value, expires FROM " +:+ tbl
                 +:+ " WHERE cache_key IN %s", [PList mks])).
  pose (s0 := {| table := table s; issued := issued s ++ [stmt] |}).
  destruct (get_many_rows_fills V pickle_loads make_key version now (table s) m
              Hsound mks [] ∅ s0) as (d & Hrun & Hd).
  - apply NoDup_fst_map_to_list.
  - intros mk H. apply list_elem_of_fmap in H as ([mk' k] & -> & H).
    apply elem_of_map_to_list in H. eauto.
  - intros mk r H Hr Hexp. destruct (Hmks mk H) as (k & Hin & <-).
    apply (Hload k r Hin Hr). lia.
  - intros k. rewrite lookup_empty. symmetry. apply filled_before. inversion 1.
  - exists d, stmt. split.
    + unfold MySQLCache.get_many. fold m. fold mks. unfold bind at 1.
      rewrite for_each_validate_ok.
      2:{ intros mk H. destruct (Hmks mk H) as (k & Hin & <-). now apply Hvalid. }
      rewrite (bind_or_raise_some _ _ _ _ _ (format_get_many_query tbl)).
      unfold bind, cursor_execute. rewrite select_many_nonempty by exact Hmne.
      fold now. fold stmt. fold s0. exact Hrun.
    + intros k. rewrite Hd. cbn [app]. unfold filled.
      destruct (decide (k ∈ keys)) as [Hin|Hnin].
      * rewrite decide_True; [reflexivity|].
        split; [apply made_keys_elem; eauto|].
        destruct (made_key_to_key_dom make_key version keys k Hin) as [k' Hk'].
        fold m in Hk'. rewrite Hk'. f_equal. apply Hinj. now apply Hsound.
      * rewrite decide_False; [reflexivity|].
        intros [_ Hk]. apply Hnin. now apply made_key_to_key_sound in Hk.
Qed.

(** X9: bulk consistency.  Let the key function be injective, the keys of
    [data] valid and pairwise different with at least one entry, every value
    one that [pickle] reads back from its dump, and the clock of the read
    not past the FOREVER sentinel.  After [set_many(data, None)], a
    [get_many] over the keys of [data] and any further valid keys
    [others] that had no row returns a dictionary with exactly the entries
    of [data]: each key of [data] with its value, none of [others]. *)
Theorem set_many_then_get_many (data : list (string * V)) (others : list string)
    (version : option Z) (t0 t : Q) (s : store) :
  data <> [] ->
  NoDup data.*1 ->
  (forall k1 k2, make_key k1 version = make_key k2 version -> k1 = k2) ->
  (forall k, k ∈ (data.*1) ++ others ->
             (String.length (make_key k version) <= 250)%nat) ->
  (forall k v, (k, v) ∈ data -> pickle_loads (pickle_dumps v) = Some v) ->
  (forall k, k ∈ others -> (k ∉ data.*1) /\ table s !! make_key k version = None) ->
  py_int (t * 1000) <= FOREVER_TIMEOUT ->
  exists s1 d s2,
    set_many data TimeoutNone version t0 s = (Return tt, s1) /\
    get_many ((data.*1) ++ others) version t s1 = (Return d, s2) /\
    (forall k v, (k, v) ∈ data -> d !! k = Some v) /\
    (forall k, k ∉ data.*1 -> d !! k = None).
Proof.
  intros Hne Hnd Hinj Hvalid Hrt Hothers Hclock.
  assert (Hvd : forall key v, (key, v) ∈ data ->
                  (String.length (make_key key version) <= 250)%nat).
  { intros key v Hin. apply Hvalid, elem_of_app. left.
    apply list_elem_of_fmap. exists (key, v). now split. }
  pose proof (set_many_run data TimeoutNone version t0 FOREVER_TIMEOUT s
                Hne Hvd eq_refl) as Hset. cbv zeta in Hset.
  set (rows := rows_of pickle_dumps make_key version FOREVER_TIMEOUT data) in *.
  assert (Hkeys : rows.*1.*1 = map (fun k => make_key k version) data.*1).
  { unfold rows. clear. induction data as [|[k v] d IH]; [reflexivity|].
    cbn. now rewrite <- IH. }
  assert (Hndr : NoDup rows.*1.*1).
  { rewrite Hkeys. apply NoDup_fmap_2_strong; [|exact Hnd].
    intros k1 k2 _ _. apply Hinj. }
  assert (Hrow : forall k v, (k, v) ∈ data ->
            Sql.upsert_rows rows (table s) !! make_key k version
            = Some (Row (pickle_dumps v) FOREVER_TIMEOUT)).
  { intros k v Hin. apply upsert_rows_in; [exact Hndr|].
    apply list_elem_of_fmap. exists (k, v). now split. }
  assert (Hother : forall k, k ∉ data.*1 ->
            Sql.upsert_rows rows (table s) !! make_key k version
            = table s !! make_key k version).
  { intros k Hk. apply upsert_rows_notin. rewrite Hkeys. intros Hin.
    apply list_elem_of_fmap in Hin as (k' & E & Hin).
    apply Hinj in E. now subst k'. }
  assert (Hkne : (data.*1) ++ others <> []).
  { destruct data; [congruence | discriminate]. }
  match type of Hset with _ = (_, ?s1) =>
    destruct (get_many_run ((data.*1) ++ others) version t s1 Hkne Hinj Hvalid)
      as (d & stmt & Hget & Hd) end.
  { cbn [table]. intros k r Hin Hr _.
    destruct (decide (k ∈ data.*1)) as [Hk|Hk].
    - apply list_elem_of_fmap in Hk as ([k' v] & -> & Hk). cbn [fst] in Hr.
      rewrite (Hrow _ _ Hk) in Hr. inversion Hr; subst r. cbn.
      rewrite (Hrt _ _ Hk). eauto.
    - rewrite (Hother k Hk) in Hr.
      apply elem_of_app in Hin as [Hin|Hin]; [contradiction|].
      destruct (Hothers k Hin) as [_ Hnone]. congruence. }
  eexists _, d, _. split; [exact Hset|]. split; [exact Hget|].
  cbn [table] in Hd. split.
  - intros k v Hin. rewrite Hd. rewrite decide_True.
    2:{ apply elem_of_app. left. apply list_elem_of_fmap. exists (k, v). now split. }
    unfold content. rewrite (Hrow _ _ Hin). cbn.
    apply Z.ltb_ge in Hclock. rewrite Hclock. now apply (Hrt k v).
  - intros k Hk. rewrite Hd.
    destruct (decide (k ∈ (data.*1) ++ others)) as [Hin|]; [|reflexivity].
    apply elem_of_app in Hin as [Hin|Hin]; [contradiction|].
    unfold content. rewrite (Hother k Hk).
    destruct (Hothers k Hin) as [_ ->]. reflexivity.
Qed.

End Bulk.

(** ** [delete_many], [clear] and a blob that cannot be read *)

Lemma foldr_delete_lookup (keys : list string) (T : gmap string row) (mk : string) :
  foldr stdpp.base.delete T keys !! mk = if decide (mk ∈ keys) then None else T !! mk.
Proof.
  induction keys as [|k keys IH]; [reflexivity|].
  cbn [foldr]. destruct (decide (k = mk)) as [->|Hne].
  - rewrite lookup_delete_eq, decide_True; [reflexivity | left].
  - rewrite lookup_delete_ne by exact Hne. rewrite IH.
    destruct (decide (mk ∈ keys)) as [Hin|Hnin].
    + rewrite decide_True; [reflexivity | now right].
    + rewrite decide_False; [reflexivity|].
      intros H. apply elem_of_cons in H as [->|H]; [now apply Hne | now apply Hnin].
Qed.

Lemma fetched_empty (mks : list string) : fetched ∅ mks = [].
Proof.
  unfold fetched. induction mks as [|mk mks IH]; [reflexivity|].
  cbn. rewrite lookup_empty. exact IH.
Qed.

Section Batches.
Variable V : Type.
Variable pickle_loads : bytes -> option V.
Variable make_key : string -> option Z -> string.
Variable tbl : string.

Local Abbreviation get_many := (get_many V pickle_loads make_key tbl).
Local Abbreviation delete_many := (delete_many make_key tbl).
Local Abbreviation clear := (clear tbl).

(** X10: [delete_many] with at least one key, all of them valid, completes
    normally with one statement; afterwards none of the requested keys has
    a row, whether it had one or not, and every row of another made key is
    as before. *)
Theorem delete_many_removes_requested (keys : list string) (version : option Z)
    (s : store) :
  keys <> [] ->
  (forall k, k ∈ keys -> (String.length (make_key k version) <= 250)%nat) ->
  exists s1 stmt,
    delete_many keys version s = (Return tt, s1) /\
    issued s1 = issued s ++ [stmt] /\
    (forall k, k ∈ keys -> table s1 !! make_key k version = None) /\
    (forall mk, (forall k, k ∈ keys -> make_key k version <> mk) ->
                table s1 !! mk = table s !! mk).
Proof.
  intros Hne Hvalid. eexists _, _. split; [|split; [|split]].
  - unfold MySQLCache.delete_many. unfold bind at 1.
    rewrite for_each_validate_ok.
    2:{ intros mk H. apply list_elem_of_fmap in H as (k & -> & Hin).
        now apply Hvalid. }
    rewrite (bind_or_raise_some _ _ _ _ _ (format_delete_many_query tbl)).
    unfold cursor_execute. rewrite delete_rows_nonempty; [reflexivity|].
    destruct keys; [congruence | discriminate].
  - reflexivity.
  - intros k Hin. cbn [table]. rewrite foldr_delete_lookup, decide_True;
      [reflexivity|]. apply list_elem_of_fmap. eauto.
  - intros mk Hmk. cbn [table]. rewrite foldr_delete_lookup, decide_False;
      [reflexivity|]. intros H. apply list_elem_of_fmap in H as (k & -> & Hin).
    now apply (Hmk k).
Qed.

(** X11: after [clear], [get_many] over at least one key, all of them
    valid, returns the empty dictionary. *)
Theorem clear_then_get_many_empty (keys : list string) (version : option Z)
    (t : Q) (s : store) :
  keys <> [] ->
  (forall k, k ∈ keys -> (String.length (make_key k version) <= 250)%nat) ->
  exists s1 s2,
    clear s = (Return tt, s1) /\
    table s1 = ∅ /\
    get_many keys version t s1 = (Return ∅, s2).
Proof.
  intros Hne Hvalid. destruct (clear_run tbl s) as [sql Hc].
  eexists _, _. split; [exact Hc|]. split; [reflexivity|].
  unfold MySQLCache.get_many. unfold bind at 1.
  rewrite for_each_validate_ok.
  2:{ intros mk H. apply made_keys_elem in H as (k & Hin & <-). now apply Hvalid. }
  rewrite (bind_or_raise_some _ _ _ _ _ (format_get_many_query tbl)).
  unfold bind, cursor_execute. cbn [table].
  rewrite select_many_nonempty by (now apply made_keys_nonempty).
  rewrite fetched_empty. reflexivity.
Qed.

(** The loop of [get_many] stops at the first live row whose blob cannot be
    read. *)
Lemma get_many_rows_aborts (now : Z) (T : gmap string row)
    (m : gmap string string) (mks : list string) (d : gmap string V) (s : store) :
  (forall mk, mk ∈ mks -> is_Some (m !! mk)) ->
  (exists mk r, mk ∈ mks /\ T !! mk = Some r /\ now <= expires r /\
                pickle_loads (value r) = None) ->
  get_many_rows V pickle_loads now m (fetched T mks) d s = (Raise UnpicklingError, s).
Proof.
  revert d. induction mks as [|mk0 mks IH]; intros d Hm (mk & r & Hin & Hr & Hlive & Hbad).
  - inversion Hin.
  - assert (Hm' : forall mk', mk' ∈ mks -> is_Some (m !! mk'))
      by (intros; apply Hm; now right).
    unfold fetched. cbn [omap list_omap]. fold (fetched T mks).
    destruct (T !! mk0) as [r0|] eqn:Hr0; cbn [fmap option_fmap option_map].
    + cbn [MySQLCache.get_many_rows].
      destruct (expires r0 <? now) eqn:Hexp.
      * apply IH; [exact Hm'|]. exists mk, r. split; [|auto].
        apply elem_of_cons in Hin as [->|Hin]; [|exact Hin].
        rewrite Hr in Hr0. inversion Hr0; subst r0.
        apply Z.ltb_lt in Hexp. lia.
      * destruct (Hm mk0) as [k0 Hk0]; [now left|].
        rewrite (bind_or_raise_some _ _ k0) by exact Hk0.
        unfold MySQLCache._decode, force_bytes, process_clob.
        destruct (pickle_loads (value r0)) as [v0|] eqn:Hv0; [|reflexivity].
        rewrite (bind_lift_return _ v0) by reflexivity.
        apply IH; [exact Hm'|]. exists mk, r. split; [|auto].
        apply elem_of_cons in Hin as [->|Hin]; [|exact Hin].
        rewrite Hr in Hr0. inversion Hr0; subst r0. congruence.
    + apply IH; [exact Hm'|]. exists mk, r. split; [|auto].
      apply elem_of_cons in Hin as [->|Hin]; [|exact Hin]. congruence.
Qed.

(** X12: one live requested row whose blob [pickle] cannot read makes the
    whole [get_many] raise: with valid keys the call issues its SELECT and
    then raises the unpickling error, returning no dictionary at all, and
    the table is as before. *)
Theorem get_many_aborts_on_unreadable_blob (keys : list string)
    (version : option Z) (t : Q) (s : store) (bad : string) (r : row) :
  (forall k, k ∈ keys -> (String.length (make_key k version) <= 250)%nat) ->
  bad ∈ keys ->
  table s !! make_key bad version = Some r ->
  py_int (t * 1000) <= expires r ->
  pickle_loads (value r) = None ->
  exists s1 stmt,
    get_many keys version t s = (Raise UnpicklingError, s1) /\
    table s1 = table s /\
    issued s1 = issued s ++ [stmt].
Proof.
  intros Hvalid Hin Hr Hlive Hbad.
  assert (Hrun : exists stmt,
            get_many keys version t s
            = (Raise UnpicklingError,
               {| table := table s; issued := issued s ++ [stmt] |})).
  2:{ destruct Hrun as [stmt Hrun]. eexists _, stmt.
      split; [exact Hrun|]. split; reflexivity. }
  eexists.
  unfold MySQLCache.get_many. unfold bind at 1.
  rewrite for_each_validate_ok.
  2:{ intros mk H. apply made_keys_elem in H as (k & Hk & <-). now apply Hvalid. }
  rewrite (bind_or_raise_some _ _ _ _ _ (format_get_many_query tbl)).
  unfold bind, cursor_execute.
  rewrite select_many_nonempty
    by (apply made_keys_nonempty; intros ->; inversion Hin).
  rewrite get_many_rows_aborts; [reflexivity| |].
  - intros mk H. apply list_elem_of_fmap in H as ([mk' k] & -> & H).
    apply elem_of_map_to_list in H. eauto.
  - exists (make_key bad version), r. split; [|auto].
    apply made_keys_elem. eauto.
Qed.

End Batches.

(** [int] is monotone. *)
Lemma py_int_le (x y : Q) : (x <= y)%Q -> py_int x <= py_int y.
Proof.
  intros H. unfold py_int.
  destruct (Qle_bool 0 x) eqn:Hx, (Qle_bool 0 y) eqn:Hy.
  - now apply Qfloor_resp_le.
  - apply Qle_bool_iff in Hx.
    assert (Hy' : (0 <= y)%Q) by (eapply Qle_trans; eauto).
    apply Qle_bool_iff in Hy'. congruence.
  - apply Qle_bool_iff in Hy.
    assert (Hx' : (x <= 0)%Q).
    { apply Qnot_lt_le. intros L. apply Qlt_le_weak in L.
      apply Qle_bool_iff in L. congruence. }
    apply Qceiling_resp_le in Hx'. apply Qfloor_resp_le in Hy.
    change (Qceiling 0) with 0 in Hx'. change (Qfloor 0) with 0 in Hy. lia.
  - now apply Qceiling_resp_le.
Qed.

(** ** Sequences of calls on one key *)

Section Sequences.
Variable V : Type.
Variable pickle_dumps : V -> bytes.
Variable pickle_loads : bytes -> option V.
Variable make_key : string -> option Z -> string.
Variable base : timeout -> Q -> option Q.
Variable tbl : string.

Local Abbreviation _decode := (_decode V pickle_loads).
Local Abbreviation get := (get V pickle_loads make_key tbl).
Local Abbreviation set := (set V pickle_dumps make_key base tbl).
Local Abbreviation add := (add V pickle_dumps make_key base tbl).
Local Abbreviation set_many := (set_many V pickle_dumps make_key base tbl).
Local Abbreviation has_key := (has_key make_key tbl).

(** [add] with a valid key, once the expiry is computed. *)
Lemma add_run (key : string) (v : V) (tmo : timeout) (version : option Z)
    (t0 t1 : Q) (exp : Z) (s : store) :
  let k := make_key key version in
  (String.length k <= 250)%nat ->
  get_backend_timeout base tmo t0 = Return exp ->
  exists stmt,
    add key v tmo version t0 t1 s
    = (let '(r, tbl') :=
         Sql.add_row k (pickle_dumps v) exp (t1 * 1000)%Q (table s) in
       (match r with
        | Return insert_id => Return (negb (insert_id =? 444))
        | Raise e => Raise e
        end,
        {| table := tbl'; issued := issued s ++ [stmt] |})).
Proof.
  intros k Hk He.
  destruct (_base_set_add V pickle_dumps base tbl k v tmo t0 t1 exp s He)
    as [sql Hs].
  eexists. unfold MySQLCache.add. fold k.
  rewrite accepted_then_body by exact Hk. exact Hs.
Qed.

(** What [get] returns from a store whose row for the key is known. *)
Lemma get_of_row (key : string) (default : V) (version : option Z) (t : Q)
    (s : store) (r : row) :
  (String.length (make_key key version) <= 250)%nat ->
  table s !! make_key key version = Some r ->
  fst (get key default version t s)
  = if expires r <? py_int (t * 1000) then Return default else _decode (value r).
Proof.
  intros Hk Hr.
  destruct (get_run V pickle_loads make_key tbl key default version t s Hk)
    as [sql ->].
  cbn [fst]. now rewrite Hr.
Qed.

(** X13: the last [set] wins.  With a valid key and computable expiries, two
    [set] calls on the same key leave exactly the second value and the
    second expiry in the row, and a [get] before that expiry returns the
    second value, if [pickle] reads it back. *)
Theorem set_twice_last_wins (key : string) (v1 v2 default : V)
    (tmo1 tmo2 : timeout) (version : option Z) (t0 t1 t2 t3 t : Q)
    (exp1 exp2 : Z) (s : store) :
  let k := make_key key version in
  (String.length k <= 250)%nat ->
  get_backend_timeout base tmo1 t0 = Return exp1 ->
  get_backend_timeout base tmo2 t2 = Return exp2 ->
  pickle_loads (pickle_dumps v2) = Some v2 ->
  py_int (t * 1000) <= exp2 ->
  exists s1 s2,
    set key v1 tmo1 version t0 t1 s = (Return tt, s1) /\
    set key v2 tmo2 version t2 t3 s1 = (Return tt, s2) /\
    table s2 = <[k := Row (pickle_dumps v2) exp2]> (table s) /\
    fst (get key default version t s2) = Return v2.
Proof.
  intros k Hk He1 He2 Hrt Hclock.
  destruct (set_run V pickle_dumps make_key base tbl key v1 tmo1 version t0 t1
              exp1 s Hk He1) as [sql1 H1].
  match type of H1 with _ = (_, ?s1) =>
    destruct (set_run V pickle_dumps make_key base tbl key v2 tmo2 version t2 t3
                exp2 s1 Hk He2) as [sql2 H2] end.
  eexists _, _. split; [exact H1|]. split; [exact H2|]. cbn [table]. fold k.
  split; [apply insert_insert_eq|].
  rewrite (get_of_row key default version t _ (Row (pickle_dumps v2) exp2) Hk)
    by (cbn [table]; apply lookup_insert_eq).
  cbn [expires value]. apply Z.ltb_ge in Hclock. rewrite Hclock.
  unfold MySQLCache._decode, force_bytes. now rewrite Hrt.
Qed.

(** X14: [add] does not overwrite a live value.  After [set] stored [v1] with
    expiry [exp1], an [add] on the same key whose clock reading in
    milliseconds is below [exp1] returns [False] and leaves the table as
    [set] left it; a [get] up to [exp1] still returns [v1]. *)
Theorem set_then_add_keeps_value (key : string) (v1 v2 default : V)
    (tmo1 tmo2 : timeout) (version : option Z) (t0 t1 t2 t3 t : Q)
    (exp1 exp2 : Z) (s : store) :
  (String.length (make_key key version) <= 250)%nat ->
  get_backend_timeout base tmo1 t0 = Return exp1 ->
  get_backend_timeout base tmo2 t2 = Return exp2 ->
  pickle_loads (pickle_dumps v1) = Some v1 ->
  (t3 * 1000 < inject_Z exp1)%Q ->
  py_int (t * 1000) <= exp1 ->
  exists s1 s2,
    set key v1 tmo1 version t0 t1 s = (Return tt, s1) /\
    add key v2 tmo2 version t2 t3 s1 = (Return false, s2) /\
    table s2 = table s1 /\
    fst (get key default version t s2) = Return v1.
Proof.
  intros Hk He1 He2 Hrt Hlive Hclock.
  destruct (set_run V pickle_dumps make_key base tbl key v1 tmo1 version t0 t1
              exp1 s Hk He1) as [sql1 H1].
  match type of H1 with _ = (_, ?s1) =>
    destruct (add_run key v2 tmo2 version t2 t3 exp2 s1 Hk He2) as [stmt H2] end.
  cbn [table] in H2.
  rewrite (add_row_live _ _ _ _ _ (Row (pickle_dumps v1) exp1)) in H2
    by (first [apply lookup_insert_eq | exact Hlive]).
  eexists _, _. split; [exact H1|]. split; [exact H2|]. split; [reflexivity|].
  rewrite (get_of_row key default version t _ (Row (pickle_dumps v1) exp1) Hk)
    by (cbn [table]; apply lookup_insert_eq).
  cbn [expires value]. apply Z.ltb_ge in Hclock. rewrite Hclock.
  unfold MySQLCache._decode, force_bytes. now rewrite Hrt.
Qed.

(** X15: [add] takes the place of an expired value.  After [set] stored [v1]
    with expiry [exp1], an [add] whose clock reading in milliseconds has
    reached [exp1] returns [True], and a [get] up to the new expiry returns
    the added value. *)
Theorem set_then_add_after_expiry (key : string) (v1 v2 default : V)
    (tmo1 tmo2 : timeout) (version : option Z) (t0 t1 t2 t3 t : Q)
    (exp1 exp2 : Z) (s : store) :
  (String.length (make_key key version) <= 250)%nat ->
  get_backend_timeout base tmo1 t0 = Return exp1 ->
  get_backend_timeout base tmo2 t2 = Return exp2 ->
  pickle_loads (pickle_dumps v2) = Some v2 ->
  (inject_Z exp1 <= t3 * 1000)%Q ->
  py_int (t * 1000) <= exp2 ->
  exists s1 s2,
    set key v1 tmo1 version t0 t1 s = (Return tt, s1) /\
    add key v2 tmo2 version t2 t3 s1 = (Return true, s2) /\
    fst (get key default version t s2) = Return v2.
Proof.
  intros Hk He1 He2 Hrt Hdead Hclock.
  destruct (set_run V pickle_dumps make_key base tbl key v1 tmo1 version t0 t1
              exp1 s Hk He1) as [sql1 H1].
  match type of H1 with _ = (_, ?s1) =>
    destruct (add_run key v2 tmo2 version t2 t3 exp2 s1 Hk He2) as [stmt H2] end.
  cbn [table] in H2.
  rewrite (add_row_expired _ _ _ _ _ (Row (pickle_dumps v1) exp1)) in H2
    by (first [apply lookup_insert_eq | exact Hdead]).
  eexists _, _. split; [exact H1|]. split; [exact H2|].
  rewrite (get_of_row key default version t _ (Row (pickle_dumps v2) exp2) Hk)
    by (cbn [table]; apply lookup_insert_eq).
  cbn [expires value]. apply Z.ltb_ge in Hclock. rewrite Hclock.
  unfold MySQLCache._decode, force_bytes. now rewrite Hrt.
Qed.

(** What [has_key] returns from a store whose row for the key is known. *)
Lemma has_key_of_row (key : string) (version : option Z) (t : Q)
    (s : store) (r : row) :
  (String.length (make_key key version) <= 250)%nat ->
  table s !! make_key key version = Some r ->
  fst (has_key key version t s) = Return (py_int (t * 1000) <? expires r).
Proof.
  intros Hk Hr.
  destruct (has_key_run make_key tbl key version t s Hk) as [sql ->].
  cbn [fst]. now rewrite Hr.
Qed.

(** X16: expiry hides a value without removing it.  After [set] stored [v]
    with expiry [exp], at every clock reading below [exp] [has_key] answers
    [True] and [get] returns [v]; at every reading past [exp] [get] returns
    the default and [has_key] answers [False], while the row is still in
    the table after the read. *)
Theorem set_then_expiry_hides (key : string) (v default : V) (tmo : timeout)
    (version : option Z) (t0 t1 : Q) (exp : Z) (s : store) :
  let k := make_key key version in
  (String.length k <= 250)%nat ->
  get_backend_timeout base tmo t0 = Return exp ->
  pickle_loads (pickle_dumps v) = Some v ->
  exists s1,
    set key v tmo version t0 t1 s = (Return tt, s1) /\
    (forall t, py_int (t * 1000) < exp ->
       fst (has_key key version t s1) = Return true /\
       fst (get key default version t s1) = Return v) /\
    (forall t, exp < py_int (t * 1000) ->
       fst (has_key key version t s1) = Return false /\
       fst (get key default version t s1) = Return default /\
       table (snd (get key default version t s1)) !! k
       = Some (Row (pickle_dumps v) exp)).
Proof.
  intros k Hk He Hrt.
  destruct (set_run V pickle_dumps make_key base tbl key v tmo version t0 t1
              exp s Hk He) as [sql1 H1].
  eexists. split; [exact H1|].
  match type of H1 with _ = (_, ?s1) =>
    assert (Hrow : table s1 !! make_key key version = Some (Row (pickle_dumps v) exp))
      by (cbn [table]; apply lookup_insert_eq) end.
  split.
  - intros t Ht. rewrite (has_key_of_row key version t _ _ Hk Hrow).
    rewrite (get_of_row key default version t _ _ Hk Hrow). cbn [expires value].
    split.
    + f_equal. apply Z.ltb_lt. exact Ht.
    + assert (E : (exp <? py_int (t * 1000)) = false) by (apply Z.ltb_ge; lia).
      rewrite E. unfold MySQLCache._decode, force_bytes. now rewrite Hrt.
  - intros t Ht. rewrite (has_key_of_row key version t _ _ Hk Hrow).
    rewrite (get_of_row key default version t _ _ Hk Hrow). cbn [expires value].
    split; [|split].
    + f_equal. apply Z.ltb_ge. lia.
    + apply Z.ltb_lt in Ht. now rewrite Ht.
    + match goal with |- context [get _ _ _ _ ?s1] =>
        destruct (get_run V pickle_loads make_key tbl key default version t s1 Hk)
          as [sql' ->] end.
      cbn [snd table]. apply lookup_insert_eq.
Qed.

(** X17: whenever [has_key] answers [True], a [get] at the same clock reading
    does not fall back to the default because of expiry: the key has a row
    with [expires > now] and [get] returns what decoding its blob gives. *)
Theorem has_key_true_then_get_decodes (key : string) (default : V)
    (version : option Z) (t : Q) (s : store) :
  (String.length (make_key key version) <= 250)%nat ->
  fst (has_key key version t s) = Return true ->
  exists r,
    table s !! make_key key version = Some r /\
    py_int (t * 1000) < expires r /\
    fst (get key default version t s) = _decode (value r).
Proof.
  intros Hk Hh.
  destruct (has_key_run make_key tbl key version t s Hk) as [sql Hrun].
  rewrite Hrun in Hh. cbn [fst] in Hh.
  destruct (table s !! make_key key version) as [r|] eqn:Hr; [|discriminate].
  injection Hh as Hlt. apply Z.ltb_lt in Hlt.
  exists r. split; [reflexivity|]. split; [exact Hlt|].
  rewrite (get_of_row key default version t s r Hk Hr).
  assert (E : (expires r <? py_int (t * 1000)) = false) by (apply Z.ltb_ge; lia).
  now rewrite E.
Qed.

(** X18: [get] tests the expiry before it decodes.  For a row whose blob
    [pickle] cannot read, [get] returns the default when the row is expired
    ([expires < now]) and raises the unpickling error otherwise; in both
    cases the table is as before. *)
Theorem get_unreadable_blob (key : string) (default : V)
    (version : option Z) (t : Q) (s : store) (r : row) :
  (String.length (make_key key version) <= 250)%nat ->
  table s !! make_key key version = Some r ->
  pickle_loads (value r) = None ->
  (expires r < py_int (t * 1000) ->
   fst (get key default version t s) = Return default) /\
  (py_int (t * 1000) <= expires r ->
   fst (get key default version t s) = Raise UnpicklingError) /\
  table (snd (get key default version t s)) = table s.
Proof.
  intros Hk Hr Hbad. rewrite (get_of_row key default version t s r Hk Hr).
  split; [|split].
  - intros H. apply Z.ltb_lt in H. now rewrite H.
  - intros H. apply Z.ltb_ge in H. rewrite H.
    unfold MySQLCache._decode, force_bytes. now rewrite Hbad.
  - destruct (get_run V pickle_loads make_key tbl key default version t s Hk)
      as [sql ->]. reflexivity.
Qed.

(** X19: a timeout that the base class maps to [None] (any timeout argument
    other than [None] itself) makes the write methods raise [TypeError]
    before the cursor is used: [set] and [add] with a valid key, and
    [set_many] whatever its keys are, since it computes the expiry before
    it validates them.  The store is exactly as before. *)
Theorem uncomputable_timeout_raises_before_store (key : string) (v : V)
    (data : list (string * V)) (tmo : timeout) (version : option Z)
    (t0 t1 : Q) (s : store) :
  tmo <> TimeoutNone ->
  base tmo t0 = None ->
  get_backend_timeout base tmo t0 = Raise TypeError /\
  set_many data tmo version t0 s = (Raise TypeError, s) /\
  ((String.length (make_key key version) <= 250)%nat ->
   set key v tmo version t0 t1 s = (Raise TypeError, s) /\
   add key v tmo version t0 t1 s = (Raise TypeError, s)).
Proof.
  intros Hne Hb.
  assert (He : get_backend_timeout base tmo t0 = Raise TypeError).
  { unfold get_backend_timeout. destruct tmo; try congruence; now rewrite Hb. }
  split; [exact He|]. split.
  - unfold MySQLCache.set_many. now apply bind_lift_raise.
  - intros Hk. split.
    + unfold MySQLCache.set. rewrite accepted_then_body by exact Hk.
      unfold bind at 1. unfold _base_set.
      now rewrite (bind_lift_raise _ TypeError) by exact He.
    + unfold MySQLCache.add. rewrite accepted_then_body by exact Hk.
      unfold _base_set. now apply bind_lift_raise.
Qed.

(** X20: a value whose absolute expiry is not before the clock reading of the
    read is returned.  If the base class answers the expiry [x] (seconds)
    for the timeout, with a millisecond count [x * 1000] that is not
    negative and below [2^53], then after [set] a [get] at any reading
    [t <= x] returns the value, if [pickle] reads it back: the float
    product in [get_backend_timeout] never rounds below the truncated
    exact product. *)
Theorem set_then_get_before_expiry (key : string) (v default : V)
    (tmo : timeout) (version : option Z) (t0 t1 t x : Q) (s : store) :
  (String.length (make_key key version) <= 250)%nat ->
  tmo <> TimeoutNone ->
  base tmo t0 = Some x ->
  (0 <= x * 1000)%Q ->
  (x * 1000 < inject_Z (2 ^ 53))%Q ->
  (t <= x)%Q ->
  pickle_loads (pickle_dumps v) = Some v ->
  exists s1,
    set key v tmo version t0 t1 s = (Return tt, s1) /\
    fst (get key default version t s1) = Return v.
Proof.
  intros Hk Hne Hb H0 H53 Hle Hrt.
  destruct (get_backend_timeout_number base tmo t0 x Hne Hb H0 H53)
    as (ms & _ & He & Hbound & _).
  destruct (set_run V pickle_dumps make_key base tbl key v tmo version t0 t1
              _ s Hk He) as [sql1 H1].
  eexists. split; [exact H1|].
  rewrite (get_of_row key default version t _
             (Row (pickle_dumps v) (py_int ms)) Hk)
    by (cbn [table]; apply lookup_insert_eq).
  cbn [expires value].
  assert (E : (py_int ms <? py_int (t * 1000)) = false).
  { apply Z.ltb_ge. eapply Z.le_trans; [|exact Hbound].
    apply py_int_le. apply Qmult_le_compat_r; [exact Hle|]. discriminate. }
  rewrite E. unfold MySQLCache._decode, force_bytes. now rewrite Hrt.
Qed.

End Sequences.

(** ** The further properties at the concrete configuration *)

Lemma bulk_rejected_before_store_witness :
  Demo.get_many ["a"%string; Demo.key_of_length 248] None 1 Demo.boundary
  = (Raise ValueError, Demo.boundary) /\
  Demo.set_many [("a"%string, "1"%string); (Demo.key_of_length 248, "2"%string)]
    TimeoutNone None 1 Demo.boundary
  = (Raise ValueError, Demo.boundary).
Proof.
  destruct (bulk_rejected_before_store string Demo.dumps Demo.loads Demo.make_key
              Demo.base_timeout Demo.tbl
              ["a"%string; Demo.key_of_length 248]
              [("a"%string, "1"%string); (Demo.key_of_length 248, "2"%string)]
              None TimeoutNone 1 FOREVER_TIMEOUT Demo.boundary) as [Hk Hd].
  split.
  - apply Hk. exists (Demo.key_of_length 248).
    split; [right; left | vm_compute; lia].
  - apply Hd; [|reflexivity].
    exists (Demo.key_of_length 248), "2"%string.
    split; [right; left | vm_compute; lia].
Defined.

Lemma delete_then_reads_miss_witness :
  exists s1,
    Demo.delete "k" None Demo.boundary = (Return tt, s1) /\
    fst (Demo.get "k" "default" None (1 # 2) s1) = Return "default"%string.
Proof.
  destruct (delete_then_reads_miss string Demo.loads Demo.make_key Demo.tbl
              "k" "default" None (1 # 2) Demo.boundary)
    as (s1 & Hdel & _ & _ & Hget & _).
  - simpl. lia.
  - exists s1. split; [exact Hdel | exact Hget].
Defined.

Lemma delete_twice_witness :
  exists s1 s2,
    Demo.delete "k" None Demo.boundary = (Return tt, s1) /\
    Demo.delete "k" None s1 = (Return tt, s2) /\
    table s2 = table s1.
Proof.
  apply (delete_twice Demo.make_key Demo.tbl "k" None Demo.boundary).
  simpl. lia.
Defined.

Lemma clear_then_reads_miss_witness :
  exists s1,
    Demo.clear Demo.boundary = (Return tt, s1) /\
    table s1 = ∅ /\
    fst (Demo.get "k" "default" None (1 # 2) s1) = Return "default"%string /\
    fst (Demo.has_key "k" None (1 # 2) s1) = Return false.
Proof.
  apply (clear_then_reads_miss string Demo.loads Demo.make_key Demo.tbl
           "k" "default" None (1 # 2) Demo.boundary).
  simpl. lia.
Defined.

Lemma set_many_upserts_every_entry_witness :
  exists s1,
    Demo.set_many [("a", "1"); ("b", "2")]%string TimeoutNone None 1 Demo.boundary
    = (Return tt, s1) /\
    table s1 !! ":1:b"%string = Some (Row (Demo.dumps "2") FOREVER_TIMEOUT) /\
    table s1 !! ":1:k"%string = Some (Row (Demo.dumps "old") 1000).
Proof.
  destruct (set_many_upserts_every_entry string Demo.dumps Demo.make_key
              Demo.base_timeout Demo.tbl [("a", "1"); ("b", "2")]%string
              TimeoutNone None 1 FOREVER_TIMEOUT Demo.boundary)
    as (s1 & sql & params & Hrun & _ & _ & Hin & Hout).
  - discriminate.
  - intros key v H.
    apply elem_of_cons in H as [H|H]; [injection H as -> ->; simpl; lia|].
    apply elem_of_cons in H as [H|H]; [injection H as -> ->; simpl; lia|].
    inversion H.
  - refine (bool_decide_unpack _ _); vm_compute; exact I.
  - reflexivity.
  - exists s1. split; [exact Hrun|]. split.
    + apply (Hin "b"%string "2"%string). right; left.
    + rewrite Hout; [reflexivity|]. intros key v H.
      apply elem_of_cons in H as [H|H]; [injection H as -> ->; discriminate|].
      apply elem_of_cons in H as [H|H]; [injection H as -> ->; discriminate|].
      inversion H.
Defined.

Lemma set_many_then_get_many_witness :
  exists s1 d s2,
    Demo.set_many [("a", "1"); ("b", "2")]%string TimeoutNone None 1 Demo.empty
    = (Return tt, s1) /\
    Demo.get_many ["a"; "b"; "d"]%string None 2 s1 = (Return d, s2) /\
    d !! "a"%string = Some "1"%string /\
    d !! "b"%string = Some "2"%string /\
    d !! "d"%string = None.
Proof.
  destruct (set_many_then_get_many string Demo.dumps Demo.loads Demo.make_key
              Demo.base_timeout Demo.tbl [("a", "1"); ("b", "2")]%string
              ["d"%string] None 1 2 Demo.empty)
    as (s1 & d & s2 & Hset & Hget & Hin & Hout).
  - discriminate.
  - refine (bool_decide_unpack _ _); vm_compute; exact I.
  - intros k1 k2 E. injection E. trivial.
  - intros k H.
    apply elem_of_cons in H as [->|H]; [simpl; lia|].
    apply elem_of_cons in H as [->|H]; [simpl; lia|].
    apply elem_of_cons in H as [->|H]; [simpl; lia|].
    inversion H.
  - intros k v H.
    apply elem_of_cons in H as [H|H]; [injection H as -> ->; reflexivity|].
    apply elem_of_cons in H as [H|H]; [injection H as -> ->; reflexivity|].
    inversion H.
  - intros k H. apply elem_of_cons in H as [->|H]; [|inversion H].
    split; [|reflexivity]. refine (bool_decide_unpack _ _); vm_compute; exact I.
  - vm_compute. discriminate.
  - exists s1, d, s2. split; [exact Hset|]. split; [exact Hget|].
    split; [apply Hin; left|].
    split; [apply Hin; right; left|].
    apply Hout. refine (bool_decide_unpack _ _); vm_compute; exact I.
Defined.

Lemma delete_many_removes_requested_witness :
  exists s1,
    Demo.delete_many ["k"; "x"]%string None Demo.boundary = (Return tt, s1) /\
    table s1 !! ":1:k"%string = None.
Proof.
  destruct (delete_many_removes_requested Demo.make_key Demo.tbl
              ["k"; "x"]%string None Demo.boundary)
    as (s1 & stmt & Hrun & _ & Hgone & _).
  - discriminate.
  - intros k H.
    apply elem_of_cons in H as [->|H]; [simpl; lia|].
    apply elem_of_cons in H as [->|H]; [simpl; lia|].
    inversion H.
  - exists s1. split; [exact Hrun|]. apply (Hgone "k"%string). left.
Defined.

Lemma clear_then_get_many_empty_witness :
  exists s1 s2,
    Demo.clear Demo.boundary = (Return tt, s1) /\
    table s1 = ∅ /\
    Demo.get_many ["k"%string] None 1 s1 = (Return ∅, s2).
Proof.
  apply (clear_then_get_many_empty string Demo.loads Demo.make_key Demo.tbl
           ["k"%string] None 1 Demo.boundary); [discriminate|].
  intros k H. apply elem_of_cons in H as [->|H]; [simpl; lia | inversion H].
Defined.

Lemma get_many_aborts_on_unreadable_blob_witness :
  exists s1,
    get_many string Demo.strict_loads Demo.make_key Demo.tbl
      ["k"%string] None (1 # 2) Demo.corrupt
    = (Raise UnpicklingError, s1) /\
    table s1 = table Demo.corrupt.
Proof.
  destruct (get_many_aborts_on_unreadable_blob string Demo.strict_loads
              Demo.make_key Demo.tbl ["k"%string] None (1 # 2) Demo.corrupt
              "k"%string (Row [] 1000))
    as (s1 & stmt & Hrun & Ht & _).
  - intros k H. apply elem_of_cons in H as [->|H]; [simpl; lia | inversion H].
  - left.
  - reflexivity.
  - vm_compute. discriminate.
  - reflexivity.
  - exists s1. split; [exact Hrun | exact Ht].
Defined.

Lemma set_twice_last_wins_witness :
  exists s1 s2,
    Demo.set "a" "1" (Seconds 5) None 1 1 Demo.empty = (Return tt, s1) /\
    Demo.set "a" "2" TimeoutNone None 2 2 s1 = (Return tt, s2) /\
    fst (Demo.get "a" "default" None 3 s2) = Return "2"%string.
Proof.
  destruct (set_twice_last_wins string Demo.dumps Demo.loads Demo.make_key
              Demo.base_timeout Demo.tbl "a" "1" "2" "default"
              (Seconds 5) TimeoutNone None 1 1 2 2 3 6000 FOREVER_TIMEOUT
              Demo.empty) as (s1 & s2 & H1 & H2 & _ & Hget).
  - simpl. lia.
  - vm_compute. reflexivity.
  - reflexivity.
  - reflexivity.
  - vm_compute. discriminate.
  - exists s1, s2. split; [exact H1|]. split; [exact H2 | exact Hget].
Defined.

Lemma set_then_add_keeps_value_witness :
  exists s1 s2,
    Demo.set "a" "1" (Seconds 5) None 1 1 Demo.empty = (Return tt, s1) /\
    Demo.add "a" "2" TimeoutNone None 2 2 s1 = (Return false, s2) /\
    fst (Demo.get "a" "default" None 3 s2) = Return "1"%string.
Proof.
  destruct (set_then_add_keeps_value string Demo.dumps Demo.loads Demo.make_key
              Demo.base_timeout Demo.tbl "a" "1" "2" "default"
              (Seconds 5) TimeoutNone None 1 1 2 2 3 6000 FOREVER_TIMEOUT
              Demo.empty) as (s1 & s2 & H1 & H2 & _ & Hget).
  - simpl. lia.
  - vm_compute. reflexivity.
  - reflexivity.
  - reflexivity.
  - reflexivity.
  - vm_compute. discriminate.
  - exists s1, s2. split; [exact H1|]. split; [exact H2 | exact Hget].
Defined.

Lemma set_then_add_after_expiry_witness :
  exists s1 s2,
    Demo.set "a" "1" (Seconds 5) None 1 1 Demo.empty = (Return tt, s1) /\
    Demo.add "a" "2" TimeoutNone None 6 6 s1 = (Return true, s2) /\
    fst (Demo.get "a" "default" None 7 s2) = Return "2"%string.
Proof.
  destruct (set_then_add_after_expiry string Demo.dumps Demo.loads Demo.make_key
              Demo.base_timeout Demo.tbl "a" "1" "2" "default"
              (Seconds 5) TimeoutNone None 1 1 6 6 7 6000 FOREVER_TIMEOUT
              Demo.empty) as (s1 & s2 & H1 & H2 & Hget).
  - simpl. lia.
  - vm_compute. reflexivity.
  - reflexivity.
  - reflexivity.
  - vm_compute. discriminate.
  - vm_compute. discriminate.
  - exists s1, s2. split; [exact H1|]. split; [exact H2 | exact Hget].
Defined.

Lemma set_then_expiry_hides_witness :
  exists s1,
    Demo.set "a" "1" (Seconds 5) None 1 1 Demo.empty = (Return tt, s1) /\
    fst (Demo.get "a" "default" None 2 s1) = Return "1"%string /\
    fst (Demo.get "a" "default" None 7 s1) = Return "default"%string /\
    fst (Demo.has_key "a" None 7 s1) = Return false.
Proof.
  destruct (set_then_expiry_hides string Demo.dumps Demo.loads Demo.make_key
              Demo.base_timeout Demo.tbl "a" "1" "default" (Seconds 5) None 1 1
              6000 Demo.empty) as (s1 & H1 & Hlive & Hdead).
  - simpl. lia.
  - vm_compute. reflexivity.
  - reflexivity.
  - exists s1. split; [exact H1|].
    destruct (Hlive 2%Q) as [_ Hg]; [vm_compute; reflexivity|].
    destruct (Hdead 7%Q) as (Hh & Hg' & _); [vm_compute; reflexivity|].
    split; [exact Hg|]. split; [exact Hg' | exact Hh].
Defined.

Lemma has_key_true_then_get_decodes_witness :
  fst (Demo.get "k" "default" None (1 # 2) Demo.boundary) = Return "old"%string.
Proof.
  destruct (has_key_true_then_get_decodes string Demo.loads Demo.make_key Demo.tbl
              "k" "default" None (1 # 2) Demo.boundary) as (r & Hr & _ & Hget).
  - simpl. lia.
  - vm_compute. reflexivity.
  - unfold Demo.get. rewrite Hget. vm_compute in Hr. injection Hr as <-.
    reflexivity.
Defined.

Lemma get_unreadable_blob_witness :
  fst (get string Demo.strict_loads Demo.make_key Demo.tbl
         "k" "default" None 2 Demo.corrupt) = Return "default"%string /\
  fst (get string Demo.strict_loads Demo.make_key Demo.tbl
         "k" "default" None (1 # 2) Demo.corrupt) = Raise UnpicklingError.
Proof.
  split.
  - destruct (get_unreadable_blob string Demo.strict_loads Demo.make_key Demo.tbl
                "k" "default" None 2 Demo.corrupt (Row [] 1000)) as (H & _ & _).
    + simpl. lia.
    + reflexivity.
    + reflexivity.
    + apply H. vm_compute. reflexivity.
  - destruct (get_unreadable_blob string Demo.strict_loads Demo.make_key Demo.tbl
                "k" "default" None (1 # 2) Demo.corrupt (Row [] 1000))
      as (_ & H & _).
    + simpl. lia.
    + reflexivity.
    + reflexivity.
    + apply H. vm_compute. discriminate.
Defined.

Lemma uncomputable_timeout_raises_before_store_witness :
  set string Demo.dumps Demo.make_key Demo.base_no_default Demo.tbl
    "a" "1" DEFAULT_TIMEOUT None 1 1 Demo.boundary
  = (Raise TypeError, Demo.boundary) /\
  set_many string Demo.dumps Demo.make_key Demo.base_no_default Demo.tbl
    [(Demo.key_of_length 300, "1"%string)] DEFAULT_TIMEOUT None 1 Demo.boundary
  = (Raise TypeError, Demo.boundary).
Proof.
  split.
  - destruct (uncomputable_timeout_raises_before_store string Demo.dumps
                Demo.make_key Demo.base_no_default Demo.tbl "a" "1" []
                DEFAULT_TIMEOUT None 1 1 Demo.boundary) as (_ & _ & H).
    + discriminate.
    + reflexivity.
    + apply H. simpl. lia.
  - destruct (uncomputable_timeout_raises_before_store string Demo.dumps
                Demo.make_key Demo.base_no_default Demo.tbl "a" "1"
                [(Demo.key_of_length 300, "1"%string)]
                DEFAULT_TIMEOUT None 1 1 Demo.boundary) as (_ & H & _).
    + discriminate.
    + reflexivity.
    + exact H.
Defined.

Lemma set_then_get_before_expiry_witness :
  exists s1,
    Demo.set "a" "1" (Seconds 5) None 1 1 Demo.empty = (Return tt, s1) /\
    fst (Demo.get "a" "default" None 6 s1) = Return "1"%string.
Proof.
  apply (set_then_get_before_expiry string Demo.dumps Demo.loads Demo.make_key
           Demo.base_timeout Demo.tbl "a" "1" "default" (Seconds 5) None
           1 1 6 (1 + 5)%Q Demo.empty).
  - simpl. lia.
  - discriminate.
  - reflexivity.
  - vm_compute. discriminate.
  - vm_compute. reflexivity.
  - vm_compute. discriminate.
  - reflexivity.
Defined.

(** ** An expiry too large for a float *)

Section Overflow.
Variable V : Type.
Variable pickle_dumps : V -> bytes.
Variable make_key : string -> option Z -> string.
Variable base : timeout -> Q -> option Q.
Variable tbl : string.

Local Abbreviation set := (set V pickle_dumps make_key base tbl).
Local Abbreviation add := (add V pickle_dumps make_key base tbl).
Local Abbreviation set_many := (set_many V pickle_dumps make_key base tbl).

(** X23: when the base class answers an expiry [x] whose float product
    [x * 1000] is infinite, [int] of it raises: [get_backend_timeout]
    raises [OverflowError], and so do [set] and [add] with a valid key and
    [set_many] whatever its keys are, before the cursor is used; the store
    is exactly as before. *)
Theorem infinite_expiry_raises_before_store (key : string) (v : V)
    (data : list (string * V)) (tmo : timeout) (version : option Z)
    (t0 t1 x : Q) (s : store) :
  tmo <> TimeoutNone ->
  base tmo t0 = Some x ->
  float_mul x 1000 = None ->
  get_backend_timeout base tmo t0 = Raise OverflowError /\
  set_many data tmo version t0 s = (Raise OverflowError, s) /\
  ((String.length (make_key key version) <= 250)%nat ->
   set key v tmo version t0 t1 s = (Raise OverflowError, s) /\
   add key v tmo version t0 t1 s = (Raise OverflowError, s)).
Proof.
  intros Hne Hb Hinf.
  assert (He : get_backend_timeout base tmo t0 = Raise OverflowError).
  { unfold get_backend_timeout. destruct tmo; try congruence; now rewrite Hb, Hinf. }
  split; [exact He|]. split.
  - unfold MySQLCache.set_many. now apply bind_lift_raise.
  - intros Hk. split.
    + unfold MySQLCache.set. rewrite accepted_then_body by exact Hk.
      unfold bind at 1. unfold _base_set.
      now rewrite (bind_lift_raise _ OverflowError) by exact He.
    + unfold MySQLCache.add. rewrite accepted_then_body by exact Hk.
      unfold _base_set. now apply bind_lift_raise.
Qed.

End Overflow.

Lemma infinite_expiry_raises_before_store_witness :
  Demo.set "a" "1" (Seconds (inject_Z (10 ^ 306))) None 1 1 Demo.boundary
  = (Raise OverflowError, Demo.boundary).
Proof.
  destruct (infinite_expiry_raises_before_store string Demo.dumps Demo.make_key
              Demo.base_timeout Demo.tbl "a" "1" []
              (Seconds (inject_Z (10 ^ 306))) None 1 1
              (1 + inject_Z (10 ^ 306))%Q Demo.boundary) as (_ & _ & H).
  - discriminate.
  - vm_compute. reflexivity.
  - vm_compute. reflexivity.
  - apply H. simpl. lia.
Defined.
